(** * brandfetch-cli: asset export and verified download

    A shallow embedding of the export and download core of the CLI:
      - [internal/output/output.go]: variable allocation for colours and
        fonts and the CSS / Tailwind emitters (module [Output]);
      - [internal/cmd/checksum.go]: the SHA-256 manifest reader, writer and
        verifier (module [Checksum]);
      - [internal/cmd/quick.go]: the [quick] command and its download
        orchestrator (module [Quick]).

    Go strings are byte sequences and are modelled by [string] (a list of
    8-bit [ascii]); Go maps are [gmap]s; slices are lists; [int] counters
    that only count slice elements are [nat]. *)

From Stdlib Require Import Ascii String.
From stdpp Require Import gmap strings list pretty sorting.

Open Scope string_scope.
Open Scope list_scope.

(** ** The parts of Go's [strings] package the code uses *)

Module GoStrings.

(** Line feed and double quote, which have no escape in string literals. *)
Definition LF : string := String (ascii_of_nat 10) "".
Definition DQ : string := String (ascii_of_nat 34) "".

(** [strings.HasPrefix]. *)
Fixpoint HasPrefix (s p : string) {struct p} : bool :=
  match p, s with
  | "", _ => true
  | String a p', String b s' => if decide (a = b) then HasPrefix s' p' else false
  | String _ _, "" => false
  end.

(** The remainder of [s] after the prefix [p], when [s] starts with [p]. *)
Fixpoint CutPrefix (s p : string) {struct p} : option string :=
  match p, s with
  | "", _ => Some s
  | String a p', String b s' => if decide (a = b) then CutPrefix s' p' else None
  | String _ _, "" => None
  end.

(** [strings.TrimPrefix]: [s] without the leading [p], or [s] itself. *)
Definition TrimPrefix (s p : string) : string :=
  match CutPrefix s p with Some r => r | None => s end.

(** [strings.TrimSuffix]: [s] without the trailing [p], or [s] itself. *)
Definition TrimSuffix (s p : string) : string :=
  match CutPrefix (String.rev s) (String.rev p) with
  | Some r => String.rev r
  | None => s
  end.

(** [strings.ReplaceAll] for a one-byte pattern. *)
Fixpoint ReplaceByte (s : string) (old : ascii) (new : string) : string :=
  match s with
  | "" => ""
  | String c s' =>
      (if decide (c = old) then new else String c "") +:+ ReplaceByte s' old new
  end.

(** [strings.Split(s, "\n")]: the pieces between line feeds; [n] line feeds
    give [n + 1] pieces. *)
Fixpoint SplitLines (s : string) : list string :=
  match s with
  | "" => [""]
  | String c s' =>
      if decide (c = ascii_of_nat 10) then "" :: SplitLines s'
      else match SplitLines s' with
           | l :: ls => String c l :: ls
           | [] => [String c ""]
           end
  end.

(** *** White space

    [unicode.IsSpace] holds of the six ASCII characters tab, line feed,
    vertical tab, form feed, carriage return and space, of U+0085 and
    U+00A0, and of U+1680, U+2000..U+200A, U+2028, U+2029, U+202F, U+205F
    and U+3000. A Go string holds their UTF-8 encodings. A lead byte of
    UTF-8 is never a continuation byte, so the decoder of [range] and of
    [DecodeLastRuneInString] sees one of these runes at a position exactly
    when the bytes of its encoding stand there; the model matches bytes. *)

Definition asciiSpace (c : ascii) : bool :=
  let n := N_of_ascii c in
  ((9 <=? n) && (n <=? 13) || (n =? 32))%N.

(** The two-byte encodings C2 85 and C2 A0. *)
Definition spaceRune2 (c d : ascii) : bool :=
  let '(c, d) := (N_of_ascii c, N_of_ascii d) in
  ((c =? 194) && ((d =? 133) || (d =? 160)))%N.

(** The three-byte encodings E1 9A 80, E2 80 80..8A, E2 80 A8, E2 80 A9,
    E2 80 AF, E2 81 9F and E3 80 80. *)
Definition spaceRune3 (c d e : ascii) : bool :=
  let '(c, d, e) := (N_of_ascii c, N_of_ascii d, N_of_ascii e) in
  ((c =? 225) && (d =? 154) && (e =? 128)
   || (c =? 226) && (d =? 128)
      && ((128 <=? e) && (e <=? 138) || (e =? 168) || (e =? 169) || (e =? 175))
   || (c =? 226) && (d =? 129) && (e =? 159)
   || (c =? 227) && (d =? 128) && (e =? 128))%N.

(** The number of bytes of the white-space rune [s] starts with, [0] when
    it starts with none. *)
Definition spaceWidth (s : string) : nat :=
  match s with
  | "" => 0
  | String c s1 =>
      if asciiSpace c then 1 else
      match s1 with
      | "" => 0
      | String d s2 =>
          if spaceRune2 c d then 2 else
          match s2 with
          | "" => 0
          | String e _ => if spaceRune3 c d e then 3 else 0
          end
      end
  end.

(** The same for the rune [s] ends with, read off the reversed string. *)
Definition spaceWidthRev (r : string) : nat :=
  match r with
  | "" => 0
  | String e r1 =>
      if asciiSpace e then 1 else
      match r1 with
      | "" => 0
      | String d r2 =>
          if spaceRune2 d e then 2 else
          match r2 with
          | "" => 0
          | String c _ => if spaceRune3 c d e then 3 else 0
          end
      end
  end.

(** Drop leading white-space runes; [k] bytes of the current rune are still
    to be dropped. *)
Fixpoint dropSpaces (width : string → nat) (k : nat) (s : string) : string :=
  match s with
  | "" => ""
  | String _ s' =>
      match k with
      | S k' => dropSpaces width k' s'
      | 0 => match width s with
             | 0 => s
             | S w => dropSpaces width w s'
             end
      end
  end.

(** [strings.TrimSpace]. *)
Definition TrimSpace (s : string) : string :=
  String.rev (dropSpaces spaceWidthRev 0 (String.rev (dropSpaces spaceWidth 0 s))).

(** The field that ends here, if one is open; [cur] holds it reversed. *)
Definition closeField (cur : option string) : list string :=
  match cur with Some r => [String.rev r] | None => [] end.

(** The loop of [strings.Fields]: [k] bytes of a white-space rune are still
    to be skipped, [cur] is the field read so far. *)
Fixpoint FieldsLoop (k : nat) (cur : option string) (s : string) : list string :=
  match s with
  | "" => closeField cur
  | String c s' =>
      match k with
      | S k' => FieldsLoop k' cur s'
      | 0 => match spaceWidth s with
             | 0 => FieldsLoop 0 (Some (String c (default "" cur))) s'
             | S w => closeField cur ++ FieldsLoop w None s'
             end
      end
  end.

(** [strings.Fields]. *)
Definition Fields (s : string) : list string := FieldsLoop 0 None s.

(** What [strings.Builder] holds after the pieces were written in order. *)
Definition Builder (pieces : list string) : string := String.concat "" pieces.

(** [%d] of a non-negative [int]. *)
Definition Itoa (n : nat) : string := pretty n.

End GoStrings.

(** ** internal/output/output.go *)

Module Output.
Import GoStrings.

Record ColorInfo := mkColorInfo {
  c_Hex : string;
  c_Type : string;
  c_Brightness : Z
}.

Record FontInfo := mkFontInfo {
  f_Name : string;
  f_Type : string
}.

Record QuickResult := mkQuickResult {
  Name : string;
  Domain : string;
  LogoLight : string;
  LogoDark : string;
  Favicon : string;
  Colors : list ColorInfo;
  Fonts : list FontInfo
}.

Record cssVar := mkCssVar {
  name : string;
  value : string
}.

Global Instance cssVar_eq_dec : EqDecision cssVar.
Proof. solve_decision. Defined.

(** [m[k]++] on a [map[string]int]: a missing key reads as zero. *)
Definition incr (k : string) (m : gmap string nat) : gmap string nat :=
  <[k := S (m !!! k)]> m.

(** The first loop of every allocator: [typeCounts[x.Type]++]. *)
Definition countTypes {A} (ty : A → string) (xs : list A) : gmap string nat :=
  foldl (λ m x, incr (ty x) m) ∅ xs.

(** The second loop of [buildColorVariables] and of
    [buildColorVariablesWithPrefix]; [base] is the part of the format
    string before the type, [--color-] or [--<prefix>-color-]. *)
Fixpoint colorLoop (base : string) (typeCounts typeIndex : gmap string nat)
    (colors : list ColorInfo) : list cssVar :=
  match colors with
  | [] => []
  | c :: rest =>
      if decide (1 < typeCounts !!! c_Type c) then
        let typeIndex' := incr (c_Type c) typeIndex in
        mkCssVar (base +:+ c_Type c +:+ "-" +:+ Itoa (typeIndex' !!! c_Type c))
                 (c_Hex c)
          :: colorLoop base typeCounts typeIndex' rest
      else
        mkCssVar (base +:+ c_Type c) (c_Hex c)
          :: colorLoop base typeCounts typeIndex rest
  end.

Definition buildColorVariables (colors : list ColorInfo) : list cssVar :=
  colorLoop "--color-" (countTypes c_Type colors) ∅ colors.

Definition buildColorVariablesWithPrefix (colors : list ColorInfo)
    (prefix : string) : list cssVar :=
  colorLoop ("--" +:+ prefix +:+ "-color-") (countTypes c_Type colors) ∅ colors.

(** The de-duplication key of a font, [f.Name + "|" + f.Type]. *)
Definition fontKey (f : FontInfo) : string := f_Name f +:+ "|" +:+ f_Type f.

(** The second loop of [buildFontVariables] and of
    [buildFontVariablesWithPrefix]. [seen] is the [map[string]bool] of keys
    already emitted; only [true] is ever stored, so a set models it. *)
Fixpoint fontLoop (base : string) (typeCounts typeIndex : gmap string nat)
    (seen : gset string) (fonts : list FontInfo) : list cssVar :=
  match fonts with
  | [] => []
  | f :: rest =>
      if decide (fontKey f ∈ seen) then
        fontLoop base typeCounts typeIndex seen rest
      else
        let seen' := {[fontKey f]} ∪ seen in
        let val := "'" +:+ f_Name f +:+ "', sans-serif" in
        if decide (1 < typeCounts !!! f_Type f) then
          let typeIndex' := incr (f_Type f) typeIndex in
          mkCssVar (base +:+ f_Type f +:+ "-" +:+ Itoa (typeIndex' !!! f_Type f)) val
            :: fontLoop base typeCounts typeIndex' seen' rest
        else
          mkCssVar (base +:+ f_Type f) val
            :: fontLoop base typeCounts typeIndex seen' rest
  end.

Definition buildFontVariables (fonts : list FontInfo) : list cssVar :=
  fontLoop "--font-" (countTypes f_Type fonts) ∅ ∅ fonts.

Definition buildFontVariablesWithPrefix (fonts : list FontInfo)
    (prefix : string) : list cssVar :=
  fontLoop ("--" +:+ prefix +:+ "-font-") (countTypes f_Type fonts) ∅ ∅ fonts.

(** The loop of [buildTailwindFonts] ([indent] is four spaces) and of
    [buildTailwindFontsNested] (six spaces). *)
Fixpoint tailwindFontLoop (indent : string) (typeCounts typeIndex : gmap string nat)
    (seen : gset string) (fonts : list FontInfo) : list string :=
  match fonts with
  | [] => []
  | f :: rest =>
      if decide (fontKey f ∈ seen) then
        tailwindFontLoop indent typeCounts typeIndex seen rest
      else
        let seen' := {[fontKey f]} ∪ seen in
        let val := ": ['" +:+ DQ +:+ f_Name f +:+ DQ +:+ "', 'sans-serif']," +:+ LF in
        if decide (1 < typeCounts !!! f_Type f) then
          let typeIndex' := incr (f_Type f) typeIndex in
          (indent +:+ f_Type f +:+ Itoa (typeIndex' !!! f_Type f) +:+ val)
            :: tailwindFontLoop indent typeCounts typeIndex' seen' rest
        else
          (indent +:+ f_Type f +:+ val)
            :: tailwindFontLoop indent typeCounts typeIndex seen' rest
  end.

Definition buildTailwindFonts (fonts : list FontInfo) : list string :=
  tailwindFontLoop "    " (countTypes f_Type fonts) ∅ ∅ fonts.

Definition buildTailwindFontsNested (fonts : list FontInfo) : list string :=
  tailwindFontLoop "      " (countTypes f_Type fonts) ∅ ∅ fonts.

(** The grouping loop of [buildTailwindColors]: hex values per type, and the
    types in order of first occurrence. *)
Definition groupColors (colors : list ColorInfo)
    : gmap string (list string) * list string :=
  foldl (λ '(typeColors, typeOrder) c,
           (<[c_Type c := (typeColors !!! c_Type c) ++ [c_Hex c]]> typeColors,
            if decide (is_Some (typeColors !! c_Type c))
            then typeOrder else typeOrder ++ [c_Type c]))
        (∅, []) colors.

(** The emitting loop of [buildTailwindColors] (indent of four spaces) and
    [buildTailwindColorsNested] (six). *)
Definition tailwindColorEntries (indent : string) (colors : list ColorInfo)
    : list string :=
  let '(typeColors, typeOrder) := groupColors colors in
  (λ colorType,
     let hexValues : list string := typeColors !!! colorType in
     match hexValues with
     | [hex] => indent +:+ colorType +:+ ": '" +:+ hex +:+ "'," +:+ LF
     | _ =>
         Builder
           ([indent +:+ colorType +:+ ": {" +:+ LF]
            ++ imap (λ i hex, indent +:+ "  " +:+ Itoa (i + 1) +:+ ": '"
                                +:+ hex +:+ "'," +:+ LF) hexValues
            ++ [indent +:+ "}," +:+ LF])
     end) <$> typeOrder.

Definition buildTailwindColors := tailwindColorEntries "    ".
Definition buildTailwindColorsNested := tailwindColorEntries "      ".

Definition cssLine (v : cssVar) : string :=
  "  " +:+ name v +:+ ": " +:+ value v +:+ ";" +:+ LF.

Definition FormatQuickCSS (result : QuickResult) : string :=
  Builder
    ([":root {" +:+ LF]
     ++ (if decide (0 < length (Colors result)) then
           ["  /* Colors */" +:+ LF]
           ++ (cssLine <$> buildColorVariables (Colors result))
         else [])
     ++ (if decide (0 < length (Fonts result)) then
           (if decide (0 < length (Colors result)) then [LF] else [])
           ++ ["  /* Fonts */" +:+ LF]
           ++ (cssLine <$> buildFontVariables (Fonts result))
         else [])
     ++ ["}"]).

Definition FormatQuickTailwind (result : QuickResult) : string :=
  Builder
    (["// Tailwind CSS config for " +:+ Name result +:+ LF;
      "// Add to your tailwind.config.js theme.extend" +:+ LF;
      "module.exports = {" +:+ LF]
     ++ (if decide (0 < length (Colors result)) then
           ["  colors: {" +:+ LF] ++ buildTailwindColors (Colors result)
           ++ ["  }," +:+ LF]
         else [])
     ++ (if decide (0 < length (Fonts result)) then
           ["  fontFamily: {" +:+ LF] ++ buildTailwindFonts (Fonts result)
           ++ ["  }," +:+ LF]
         else [])
     ++ ["}"]).

(** The five [TrimSuffix] calls shared by the three sanitizers. *)
Definition stripTLD (domain : string) : string :=
  let name := TrimSuffix domain ".com" in
  let name := TrimSuffix name ".io" in
  let name := TrimSuffix name ".org" in
  let name := TrimSuffix name ".net" in
  TrimSuffix name ".co".

Definition sanitizeCSSName (domain : string) : string :=
  ReplaceByte (stripTLD domain) "." "-".

Definition sanitizeTailwindKey (domain : string) : string :=
  ReplaceByte (ReplaceByte (stripTLD domain) "." "_") "-" "_".

(** The body of the [for i, result := range results] loop of
    [FormatQuickCSSBatch]. *)
Definition cssBatchEntry (i : nat) (result : QuickResult) : list string :=
  let brandPrefix := sanitizeCSSName (Domain result) in
  (if decide (0 < i) then [LF] else [])
  ++ ["  /* " +:+ Name result +:+ " */" +:+ LF]
  ++ (if decide (0 < length (Colors result)) then
        cssLine <$> buildColorVariablesWithPrefix (Colors result) brandPrefix
      else [])
  ++ (if decide (0 < length (Fonts result)) then
        cssLine <$> buildFontVariablesWithPrefix (Fonts result) brandPrefix
      else []).

Definition FormatQuickCSSBatch (results : list QuickResult) : string :=
  match results with
  | [] => ":root {" +:+ LF +:+ "}"
  | [r] => FormatQuickCSS r
  | _ =>
      Builder ([":root {" +:+ LF]
               ++ mjoin (imap cssBatchEntry results)
               ++ ["}"])
  end.

Definition tailwindBatchColors (result : QuickResult) : list string :=
  if decide (length (Colors result) = 0) then []
  else ["    " +:+ sanitizeTailwindKey (Domain result) +:+ ": {" +:+ LF]
       ++ buildTailwindColorsNested (Colors result)
       ++ ["    }," +:+ LF].

Definition tailwindBatchFonts (result : QuickResult) : list string :=
  if decide (length (Fonts result) = 0) then []
  else ["    " +:+ sanitizeTailwindKey (Domain result) +:+ ": {" +:+ LF]
       ++ buildTailwindFontsNested (Fonts result)
       ++ ["    }," +:+ LF].

Definition FormatQuickTailwindBatch (results : list QuickResult) : string :=
  match results with
  | [] => "module.exports = {" +:+ LF +:+ "}"
  | [r] => FormatQuickTailwind r
  | _ =>
      let hasColors := existsb (λ r, bool_decide (0 < length (Colors r))) results in
      let hasFonts := existsb (λ r, bool_decide (0 < length (Fonts r))) results in
      Builder
        (["// Tailwind CSS config for multiple brands" +:+ LF;
          "// Add to your tailwind.config.js theme.extend" +:+ LF;
          "module.exports = {" +:+ LF]
         ++ (if hasColors then
               ["  colors: {" +:+ LF]
               ++ mjoin (tailwindBatchColors <$> results)
               ++ ["  }," +:+ LF]
             else [])
         ++ (if hasFonts then
               ["  fontFamily: {" +:+ LF]
               ++ mjoin (tailwindBatchFonts <$> results)
               ++ ["  }," +:+ LF]
             else [])
         ++ ["}"])
  end.

End Output.

(** ** Errors *)

Module Errors.

(** The causes the [os] package reports in this model. *)
Inductive oserror := ENOENT | EACCES | EISDIR | ENOTDIR | EIO.

(** The [error] values the commands build; the constructor stands for the
    format string, the arguments for what is printed into it. *)
Inductive error :=
  | ErrOpenForChecksum (cause : oserror)  (* failed to open file for checksum: %w *)
  | ErrReadForChecksum (cause : oserror)  (* failed to read file for checksum: %w *)
  | ErrReadManifest (cause : oserror)     (* failed to read manifest: %w *)
  | ErrNoManifestEntry (base : string)    (* no manifest entry for %s *)
  | ErrExpected (expected : string)       (* expected %s *)
  | ErrNoDownloadedFiles                  (* no downloaded files to write *)
  | ErrOS (cause : oserror)               (* an error of package os, as it is *)
  | ErrExternal (msg : string)            (* an error of a client, as it is *)
  | ErrHTTPStatus (code : Z)              (* HTTP %d *)
  | ErrCSSJSON                            (* --css and --output json are mutually exclusive *)
  | ErrTailwindJSON                       (* --tailwind and --output json ... *)
  | ErrTailwindCSS                        (* --tailwind and --css ... *)
  | ErrFetchAll (summary : string)        (* failed to fetch all domains: %s *)
  | ErrInvalidFormat (s : string)         (* invalid format: %s ... *)
  | ErrInvalidColorMode (s : string)      (* invalid color mode: %s ... *)
  | ErrManifestRequiresDownload           (* --sha256-manifest requires --download *)
  | ErrManifestOutRequiresDownload        (* --sha256-manifest-out requires --download *)
  | ErrAppendRequiresManifestOut.         (* --sha256-manifest-append requires --sha256-manifest-out *)

Inductive result (A : Type) :=
  | Ok (a : A)
  | Err (e : error).
Global Arguments Ok {A} a.
Global Arguments Err {A} e.

Definition isErr {A} (r : result A) : bool :=
  match r with Ok _ => false | Err _ => true end.

End Errors.

(** ** The file system and the library functions outside the repository *)

Module Sys.
Import Errors.

(** A regular file with the two permissions that matter, or a directory.
    Paths are flat keys: the model keeps what a path names, not the tree. *)
Record file := mkFile { readable : bool; writable : bool; data : string }.
Inductive node := File (f : file) | Dir.
Abbreviation FS := (gmap string node).

(** [os.ReadFile]. *)
Definition ReadFile (fs : FS) (path : string) : oserror + string :=
  match fs !! path with
  | None => inl ENOENT
  | Some Dir => inl EISDIR
  | Some (File f) => if readable f then inr (data f) else inl EACCES
  end.

(** [os.WriteFile(path, data, 0o644)]: an existing file keeps its mode and
    is truncated, a missing one is created readable and writable. *)
Definition WriteFile (fs : FS) (path : string) (content : string) : oserror + FS :=
  match fs !! path with
  | None => inr (<[path := File (mkFile true true content)]> fs)
  | Some Dir => inl EISDIR
  | Some (File f) =>
      if writable f
      then inr (<[path := File (mkFile (readable f) true content)]> fs)
      else inl EACCES
  end.

(** [os.MkdirAll]: fails where the path names a regular file. *)
Definition MkdirAll (fs : FS) (path : string) : oserror + FS :=
  match fs !! path with
  | Some (File _) => inl ENOTDIR
  | _ => inr (<[path := Dir]> fs)
  end.

(** Functions of Go's library that the code calls and the repository does
    not define. *)
Class GoLib := {
  (** [hex.EncodeToString] of the SHA-256 digest of a file's bytes *)
  sha256_hex : string → string;
  (** [strings.EqualFold] *)
  EqualFold : string → string → bool;
  (** [filepath.Base] *)
  filepath_Base : string → string;
  (** [filepath.Rel(root, path)], [None] when it returns an error *)
  filepath_Rel : string → string → option string;
  (** [filepath.Join] of two elements *)
  filepath_Join : string → string → string;
  (** [filepath.Ext] *)
  filepath_Ext : string → string;
  (** the [Path] of [url.Parse], [None] when it returns an error *)
  url_Parse_Path : string → option string;
  (** [strings.ToLower] *)
  ToLower : string → string;
  (** [strings.Join] *)
  Join : list string → string → string;
  (** the message of the error of [http.NewRequest] for a URL, if any *)
  NewRequest_error : string → option string
}.

End Sys.

(** ** internal/cmd/checksum.go *)

Module Checksum.
Import GoStrings Errors Sys.

Record checksumEntry := mkEntry { Path : string; Sum : string }.

Global Instance checksumEntry_eq_dec : EqDecision checksumEntry.
Proof. solve_decision. Defined.

(** The body of the loop of [parseSHA256Manifest]. *)
Definition parseLine (entries : gmap string string) (line : string)
    : gmap string string :=
  let trimmed := TrimSpace line in
  if decide (trimmed = "") then entries
  else if HasPrefix trimmed "#" then entries
  else
    match Fields trimmed with
    | hash :: filename :: _ =>
        let filename := TrimPrefix filename "*" in
        let filename := TrimPrefix filename "./" in
        if decide (filename ≠ "") then <[filename := hash]> entries else entries
    | _ => entries
    end.

Definition parseSHA256Manifest (fs : FS) (path : string)
    : result (gmap string string) :=
  match ReadFile fs path with
  | inl e => Err (ErrReadManifest e)
  | inr data => Ok (foldl parseLine ∅ (SplitLines data))
  end.

(** The second loop of [writeSHA256Manifest]: entries with an empty path or
    an empty sum are passed over. *)
Definition mergeEntry (merged : gmap string string) (entry : checksumEntry)
    : gmap string string :=
  if decide (Path entry = "" ∨ Sum entry = "") then merged
  else <[Path entry := Sum entry]> merged.

(** [sort.Strings] of the keys of a map. The keys are distinct and the
    order on strings is total, so the result does not depend on the order
    in which [range] hands them out. *)
Definition sortedKeys (m : gmap string string) : list string :=
  merge_sort String.le (map_to_list m).*1.

Definition manifestLine (merged : gmap string string) (name : string) : string :=
  merged !!! name +:+ "  " +:+ name +:+ LF.

Definition manifestText (merged : gmap string string) : string :=
  Builder (manifestLine merged <$> sortedKeys merged).

Definition writeSHA256Manifest (fs : FS) (path : string)
    (entries : list checksumEntry) (appendExisting : bool) : result FS :=
  if decide (length entries = 0) then Err ErrNoDownloadedFiles
  else
    let merged : gmap string string :=
      if appendExisting then
        match parseSHA256Manifest fs path with
        | Ok existing => existing
        | Err _ => ∅
        end
      else ∅ in
    let merged := foldl mergeEntry merged entries in
    match WriteFile fs path (manifestText merged) with
    | inl e => Err (ErrOS e)
    | inr fs' => Ok fs'
    end.

Section with_lib.
Context `{GoLib}.

Definition computeSHA256 (fs : FS) (path : string) : result string :=
  match fs !! path with
  | None => Err (ErrOpenForChecksum ENOENT)
  | Some Dir => Err (ErrReadForChecksum EISDIR)
  | Some (File f) =>
      if readable f then Ok (sha256_hex (data f))
      else Err (ErrOpenForChecksum EACCES)
  end.

Definition verifySHA256 (fs : FS) (path expected : string) : result bool :=
  match computeSHA256 fs path with
  | Err e => Err e
  | Ok sum => Ok (EqualFold sum (TrimSpace expected))
  end.

(** The keys tried, in order: the root-relative path when there is a root
    and [filepath.Rel] gives something other than the empty string and
    the dot, then the base name. *)
Definition entryKeys (path root : string) : list string :=
  let keys := [filepath_Base path] in
  if decide (root ≠ "") then
    match filepath_Rel root path with
    | Some rel => if decide (rel ≠ "" ∧ rel ≠ ".") then [rel] ++ keys else keys
    | None => keys
    end
  else keys.

(** The lookup loop: [expected, ok = manifest[key]], leaving at the first
    key that is present. *)
Fixpoint lookupKeys (manifest : gmap string string) (keys : list string)
    : string * bool :=
  match keys with
  | [] => ("", false)
  | key :: rest =>
      match manifest !! key with
      | Some expected => (expected, true)
      | None => lookupKeys manifest rest
      end
  end.

(** A nil [map] is [None]. *)
Definition verifySHA256ManifestEntry (fs : FS) (path root : string)
    (manifest : option (gmap string string)) : result unit :=
  match manifest with
  | None => Ok ()
  | Some manifest =>
      let '(expected, ok) := lookupKeys manifest (entryKeys path root) in
      if negb ok then Err (ErrNoManifestEntry (filepath_Base path))
      else
        match verifySHA256 fs path expected with
        | Err e => Err e
        | Ok okSum => if negb okSum then Err (ErrExpected expected) else Ok ()
        end
  end.

Definition buildChecksumEntry (fs : FS) (path root : string)
    : result checksumEntry :=
  match computeSHA256 fs path with
  | Err e => Err e
  | Ok sum =>
      let entryPath := filepath_Base path in
      let entryPath :=
        if decide (root ≠ "") then
          match filepath_Rel root path with
          | Some rel => if decide (rel ≠ "" ∧ rel ≠ ".") then rel else entryPath
          | None => entryPath
          end
        else entryPath in
      Ok (mkEntry entryPath sum)
  end.
End with_lib.

End Checksum.

(** ** internal/cmd/quick.go *)

Module Api.

(** The fields of [api.Brand] the [quick] command reads. *)
Record LogoFormat := mkLogoFormat { Src : string; Format : string }.
Record Logo := mkLogo { Type_ : string; Theme : string; Formats : list LogoFormat }.
Record Color := mkColor { Hex : string; CType : string; Brightness : Z }.
Record Font := mkFont { FName : string; FType : string }.
Record Brand := mkBrand {
  Name : string;
  Domain : string;
  Logos : list Logo;
  Colors : list Color;
  Fonts : list Font
}.

End Api.

Module Quick.
Import GoStrings Errors Sys Output Checksum.

(** The package-level flag variables, read by one run of the command. *)
Record Flags := mkFlags {
  outputFormat : string;
  colorMode : string;
  downloadDir : string;
  cssOutput : bool;
  tailwindOutput : bool;
  quickSHA256 : bool;
  quickSHA256Manifest : string;
  quickSHA256ManifestOut : string;
  quickSHA256ManifestAppend : bool;
  quickSHA256ManifestVerify : bool
}.

(** What [http.NewRequest] and the three [Header.Set] calls build. *)
Record Request := mkRequest {
  Method : string;
  URL : string;
  Header : list (string * string)
}.

(** What [HTTPClient.Do] hands back: an error, or a response whose body
    gives [Body] and then ends, with a read error or without. *)
Inductive HTTPResult :=
  | DoError (msg : string)
  | Response (StatusCode : Z) (Body : string) (BodyErr : option oserror).

Inductive Format := FormatText | FormatJSON.

(** What the command is run with: the [APIClient] and the [HTTPClient] (the
    two interfaces of the source, mocked in its tests), the plain
    text / JSON printer [output.FormatQuickBatch] (outside the export core;
    its JSON branch is [encoding/json]), and two facts about the process. *)
Class Env := {
  GetBrand : string → string + Api.Brand;
  Do : Request → HTTPResult;
  FormatQuickBatch : list QuickResult → Format → bool → string;
  NO_COLOR_set : bool;
  isTerminal : bool
}.

(** Requests that went out. *)
Inductive NetEvent :=
  | BrandRequest (domain : string)
  | AssetRequest (url : string).

(** Lines on the diagnostic stream; the constructor stands for the format
    string of the [Fprintf]. *)
Inductive LogLine :=
  | LogFetchError (domain msg : string)            (* Error fetching %s: %v *)
  | LogMkdirFailed (dir : string) (e : oserror)    (* Error: failed to create directory %s: %v *)
  | LogDownloadFailed (filename : string) (e : error)  (* Error: failed to download %s: %v *)
  | LogDownloaded (destPath : string)              (* Downloaded: %s *)
  | LogChecksumWriteFailed (filename : string) (e : error) (* Error: failed to write checksum for %s: %v *)
  | LogVerifyFailed (filename : string) (e : error)    (* Error: checksum verification failed for %s: %v *)
  | LogComputeFailed (filename : string) (e : error).  (* Error: failed to compute checksum for %s: %v *)

(** Everything a run can change. *)
Record World := mkWorld {
  fs : FS;
  stdout : list string;
  stderr : list LogLine;
  network : list NetEvent
}.

Definition setFS (w : World) (fs' : FS) : World :=
  mkWorld fs' (stdout w) (stderr w) (network w).
Definition printOut (line : string) (w : World) : World :=
  mkWorld (fs w) (stdout w ++ [line]) (stderr w) (network w).
Definition printErr (line : LogLine) (w : World) : World :=
  mkWorld (fs w) (stdout w) (stderr w ++ [line]) (network w).
Definition sent (ev : NetEvent) (w : World) : World :=
  mkWorld (fs w) (stdout w) (stderr w) (network w ++ [ev]).

Definition sanitizeDirName (domain : string) : string :=
  ReplaceByte (stripTLD domain) "." "-".

(** The body of the inner loop of [findLogos]. *)
Definition findLogosFormat (logo : Api.Logo) (found : string * string * string)
    (f : Api.LogoFormat) : string * string * string :=
  let '(logoLight, logoDark, favicon) := found in
  let favicon :=
    if decide (Api.Type_ logo = "icon" ∧ favicon = "") then Api.Src f
    else favicon in
  if decide (Api.Format f ≠ "svg" ∨ Api.Type_ logo ≠ "logo")
  then (logoLight, logoDark, favicon)
  else
    let logoLight :=
      if decide (Api.Theme logo = "light" ∧ logoLight = "") then Api.Src f
      else logoLight in
    let logoDark :=
      if decide (Api.Theme logo = "dark" ∧ logoDark = "") then Api.Src f
      else logoDark in
    (logoLight, logoDark, favicon).

Definition findLogos (logos : list Api.Logo) : string * string * string :=
  foldl (λ found logo, foldl (findLogosFormat logo) found (Api.Formats logo))
        ("", "", "") logos.

Definition convertBrandToQuickResult (brand : Api.Brand) : QuickResult :=
  let '(logoLight, logoDark, favicon) := findLogos (Api.Logos brand) in
  mkQuickResult (Api.Name brand) (Api.Domain brand) logoLight logoDark favicon
    ((λ c, mkColorInfo (Api.Hex c) (Api.CType c) (Api.Brightness c))
       <$> Api.Colors brand)
    ((λ f, mkFontInfo (Api.FName f) (Api.FType f)) <$> Api.Fonts brand).

(** [output.ParseFormat] and [output.ParseColorMode] after the defaults of
    [resolveOutput]; the colour decision is [output.ResolveColorMode]. *)
Inductive ColorMode := ColorAuto | ColorAlways | ColorNever.

Section with_env.
Context `{GoLib} `{Env}.

Definition ParseFormat (s : string) : result Format :=
  let l := ToLower s in
  if decide (l = "text") then Ok FormatText
  else if decide (l = "json") then Ok FormatJSON
  else Err (ErrInvalidFormat s).

Definition ParseColorMode (s : string) : result ColorMode :=
  let l := ToLower s in
  if decide (l = "auto") then Ok ColorAuto
  else if decide (l = "always") then Ok ColorAlways
  else if decide (l = "never") then Ok ColorNever
  else Err (ErrInvalidColorMode s).

Definition ResolveColorMode (mode : ColorMode) (format : Format)
    (noColor isTTY : bool) : bool :=
  match format with
  | FormatJSON => false
  | FormatText =>
      if noColor then false
      else match mode with
           | ColorAlways => true
           | ColorNever => false
           | ColorAuto => isTTY
           end
  end.

Definition resolveOutput (flags : Flags) : result (Format * bool) :=
  let formatInput :=
    if decide (outputFormat flags = "") then "text" else outputFormat flags in
  match ParseFormat formatInput with
  | Err e => Err e
  | Ok format =>
      let modeInput :=
        if decide (colorMode flags = "") then "auto" else colorMode flags in
      match ParseColorMode modeInput with
      | Err e => Err e
      | Ok mode => Ok (format, ResolveColorMode mode format NO_COLOR_set isTerminal)
      end
  end.

Definition getExtensionFromURL (rawURL : string) : string :=
  match url_Parse_Path rawURL with
  | None => ""
  | Some path =>
      let ext := filepath_Ext path in
      if decide (ext = "") then "" else ToLower ext
  end.

Definition browserHeaders : list (string * string) :=
  [("User-Agent", "Mozilla/5.0 (Macintosh; Intel Mac OS X 10_15_7) AppleWebKit/537.36 (KHTML, like Gecko) Chrome/120.0.0.0 Safari/537.36");
   ("Accept", "image/svg+xml,image/webp,image/apng,image/*,*/*;q=0.8");
   ("Accept-Language", "en-US,en;q=0.9")].

(** [downloadFile]: request, status check, [os.Create], [io.Copy]. *)
Definition downloadFile (fileURL destPath : string) (w : World)
    : option error * World :=
  match NewRequest_error fileURL with
  | Some msg => (Some (ErrExternal msg), w)
  | None =>
      let req := mkRequest "GET" fileURL browserHeaders in
      let w := sent (AssetRequest fileURL) w in
      match Do req with
      | DoError msg => (Some (ErrExternal msg), w)
      | Response code body bodyErr =>
          if decide (code ≠ 200%Z) then (Some (ErrHTTPStatus code), w)
          else
            match WriteFile (fs w) destPath body with
            | inl e => (Some (ErrOS e), w)
            | inr fs' =>
                (match bodyErr with Some e => Some (ErrOS e) | None => None end,
                 setFS w fs')
            end
      end
  end.

Definition writeSHA256File (path : string) (w : World) : option error * World :=
  match computeSHA256 (fs w) path with
  | Err e => (Some e, w)
  | Ok sum =>
      let content := sum +:+ "  " +:+ filepath_Base path +:+ LF in
      match WriteFile (fs w) (path +:+ ".sha256") content with
      | inl e => (Some (ErrOS e), w)
      | inr fs' => (None, setFS w fs')
      end
  end.

(** The [downloads] slice of [downloadAssetsToDir]: URL and file name. *)
Definition assetSlots (result : QuickResult) : list (string * string) :=
  (if decide (LogoLight result ≠ "") then [(LogoLight result, "logo-light.svg")]
   else [])
  ++ (if decide (LogoDark result ≠ "") then [(LogoDark result, "logo-dark.svg")]
      else [])
  ++ (if decide (Favicon result ≠ "")
      then [(Favicon result, "favicon" +:+ getExtensionFromURL (Favicon result))]
      else []).

(** The loop over [downloads]. [manifestEntries] is the slice behind the
    pointer of the same name, [None] for a nil pointer. The result is the
    error returned from inside the loop, if any. *)
Fixpoint downloadLoop (flags : Flags) (targetDir : string)
    (manifest : option (gmap string string))
    (downloads : list (string * string))
    (manifestEntries : option (list checksumEntry)) (w : World)
    : option error * option (list checksumEntry) * World :=
  match downloads with
  | [] => (None, manifestEntries, w)
  | (url, filename) :: rest =>
      let destPath := filepath_Join targetDir filename in
      match downloadFile url destPath w with
      | (Some err, w) =>
          downloadLoop flags targetDir manifest rest manifestEntries
            (printErr (LogDownloadFailed filename err) w)
      | (None, w) =>
          let w := printErr (LogDownloaded destPath) w in
          let w :=
            if quickSHA256 flags then
              match writeSHA256File destPath w with
              | (Some err, w) => printErr (LogChecksumWriteFailed filename err) w
              | (None, w) => w
              end
            else w in
          let verified : option error * World :=
            match manifest with
            | None => (None, w)
            | Some _ =>
                match verifySHA256ManifestEntry (fs w) destPath
                        (downloadDir flags) manifest with
                | Err err =>
                    (if quickSHA256ManifestVerify flags then Some err else None,
                     printErr (LogVerifyFailed filename err) w)
                | Ok _ => (None, w)
                end
            end in
          match verified with
          | (Some err, w) => (Some err, manifestEntries, w)
          | (None, w) =>
              match manifestEntries with
              | None =>
                  downloadLoop flags targetDir manifest rest manifestEntries w
              | Some entries =>
                  match buildChecksumEntry (fs w) destPath (downloadDir flags) with
                  | Ok entry =>
                      downloadLoop flags targetDir manifest rest
                        (Some (entries ++ [entry])) w
                  | Err err =>
                      downloadLoop flags targetDir manifest rest manifestEntries
                        (printErr (LogComputeFailed filename err) w)
                  end
              end
          end
      end
  end.

Definition downloadAssetsToDir (flags : Flags) (result : QuickResult)
    (targetDir : string) (manifest : option (gmap string string))
    (manifestEntries : option (list checksumEntry)) (w : World)
    : option error * option (list checksumEntry) * World :=
  match MkdirAll (fs w) targetDir with
  | inl e => (Some (ErrOS e), manifestEntries, printErr (LogMkdirFailed targetDir e) w)
  | inr fs' =>
      downloadLoop flags targetDir manifest (assetSlots result) manifestEntries
        (setFS w fs')
  end.

(** The directory of one brand: the download root for a batch of one, a
    subdirectory per brand otherwise. *)
Definition targetDirOf (flags : Flags) (batchSize : nat) (result : QuickResult)
    : string :=
  if decide (1 < batchSize)
  then filepath_Join (downloadDir flags) (sanitizeDirName (Output.Domain result))
  else downloadDir flags.

(** The loop of [downloadAssetsBatch]; [batchSize] is [len(results)] of the
    whole batch. *)
Fixpoint batchLoop (flags : Flags) (batchSize : nat) (results : list QuickResult)
    (manifest : option (gmap string string))
    (manifestEntries : option (list checksumEntry)) (w : World)
    : option error * option (list checksumEntry) * World :=
  match results with
  | [] => (None, manifestEntries, w)
  | result :: rest =>
      match downloadAssetsToDir flags result (targetDirOf flags batchSize result)
              manifest manifestEntries w with
      | (Some err, manifestEntries, w) => (Some err, manifestEntries, w)
      | (None, manifestEntries, w) =>
          batchLoop flags batchSize rest manifest manifestEntries w
      end
  end.

Definition downloadAssetsBatch (flags : Flags) (results : list QuickResult)
    (manifest : option (gmap string string))
    (manifestEntries : option (list checksumEntry)) (w : World)
    : option error * option (list checksumEntry) * World :=
  batchLoop flags (length results) results manifest manifestEntries w.

(** The body of the fetch loop of [runQuickCmd]. *)
Definition fetchBrand (acc : list QuickResult * list string * World)
    (domain : string) : list QuickResult * list string * World :=
  let '(results, fetchErrors, w) := acc in
  let w := sent (BrandRequest domain) w in
  match GetBrand domain with
  | inl msg =>
      (results, fetchErrors ++ [domain +:+ ": " +:+ msg],
       printErr (LogFetchError domain msg) w)
  | inr brand => (results ++ [convertBrandToQuickResult brand], fetchErrors, w)
  end.

Definition runQuickCmd (flags : Flags) (args : list string) (w : World)
    : option error * World :=
  if cssOutput flags && bool_decide (outputFormat flags = "json")
  then (Some ErrCSSJSON, w)
  else if tailwindOutput flags && bool_decide (outputFormat flags = "json")
  then (Some ErrTailwindJSON, w)
  else if tailwindOutput flags && cssOutput flags
  then (Some ErrTailwindCSS, w)
  else
    let '(results, fetchErrors, w) := foldl fetchBrand ([], [], w) args in
    if decide (length results = 0)
    then (Some (ErrFetchAll (Join fetchErrors "; ")), w)
    else
      match resolveOutput flags with
      | Err e => (Some e, w)
      | Ok (format, colorize) =>
          let text :=
            if cssOutput flags then FormatQuickCSSBatch results
            else if tailwindOutput flags then FormatQuickTailwindBatch results
            else FormatQuickBatch results format colorize in
          let w := printOut (text +:+ LF) w in
          if decide (downloadDir flags ≠ "") then
            let loaded : result (option (gmap string string)) :=
              if decide (quickSHA256Manifest flags ≠ "") then
                match parseSHA256Manifest (fs w) (quickSHA256Manifest flags) with
                | Err e => Err e
                | Ok m => Ok (Some m)
                end
              else Ok None in
            match loaded with
            | Err e => (Some e, w)
            | Ok manifest =>
                match downloadAssetsBatch flags results manifest (Some []) w with
                | (Some e, _, w) => (Some e, w)
                | (None, manifestEntries, w) =>
                    if decide (quickSHA256ManifestOut flags ≠ "") then
                      match writeSHA256Manifest (fs w)
                              (quickSHA256ManifestOut flags)
                              (default [] manifestEntries)
                              (quickSHA256ManifestAppend flags) with
                      | Err e => (Some e, w)
                      | Ok fs' => (None, setFS w fs')
                      end
                    else (None, w)
                end
            end
          else if decide (quickSHA256Manifest flags ≠ "")
          then (Some ErrManifestRequiresDownload, w)
          else if decide (quickSHA256ManifestOut flags ≠ "")
          then (Some ErrManifestOutRequiresDownload, w)
          else if quickSHA256ManifestAppend flags
          then (Some ErrAppendRequiresManifestOut, w)
          else (None, w)
      end.

End with_env.

End Quick.

(** ** internal/cmd/logo_download.go *)

Module LogoDownload.
Import GoStrings Errors Sys Output Checksum Quick.

(** The flag variables of the [logo] and [logo download] commands. *)
Record LogoFlags := mkLogoFlags {
  logoFormat : string;
  logoTheme : string;
  logoType : string;
  logoFallback : string;
  logoWidth : Z;
  logoHeight : Z;
  logoDownloadPath : string;
  logoDownloadDir : string;
  logoDownloadSHA256 : string
}.

(** [api.LogoOptions]. *)
Record LogoOptions := mkLogoOptions {
  Identifier : string;
  Format : string;
  Theme : string;
  Type_ : string;
  Fallback : string;
  Width : Z;
  Height : Z
}.

(** The errors [runLogoDownloadCmd] returns. *)
Inductive logoError :=
  | ErrPathDirExclusive                       (* --path and --dir are mutually exclusive *)
  | ErrGetLogo (msg : string)                 (* the error of GetLogo, as it is *)
  | ErrCreateDirectory (dir : string) (e : oserror) (* failed to create directory %s: %w *)
  | ErrDownloadLogo (e : error)               (* failed to download logo: %w *)
  | ErrSHA256Mismatch (path : string)         (* sha256 mismatch for %s *)
  | ErrPrintJSON (msg : string)               (* the error of PrintJSON, as it is *)
  | ErrAsIs (e : error).                      (* an error of verifySHA256 or resolveOutput *)

Section with_env.
Context `{GoLib} `{Env}.

(** [APIClient.GetLogo] gives an error or a result, of which the command
    reads the URL; [filepath.Dir]; and what [output.PrintJSON] writes for the
    payload of URL and path, or its error. *)
Variable GetLogo : LogoOptions → string + string.
Variable filepath_Dir : string → string.
Variable PrintJSON : string → string → string + string.

Definition sanitizeFileName (value : string) : string :=
  let safe := TrimSpace value in
  let safe := filepath_Base safe in
  if decide (safe = "" ∨ safe = "." ∨ safe = "..") then "logo"
  else
    let safe := ReplaceByte safe " " "-" in
    ReplaceByte safe ":" "-".

(** The destination when no [--path] is given. *)
Definition defaultPath (lf : LogoFlags) (identifier url : string) : string :=
  let ext := logoFormat lf in
  let extFromURL := TrimPrefix (getExtensionFromURL url) "." in
  let ext := if decide (extFromURL ≠ "") then extFromURL else ext in
  let ext := if decide (ext = "") then "svg" else ext in
  let filename := sanitizeFileName identifier in
  let path := filename +:+ "." +:+ ext in
  if decide (logoDownloadDir lf ≠ "") then filepath_Join (logoDownloadDir lf) path
  else path.

(** [runLogoDownloadCmd] for the one argument [identifier]. *)
Definition runLogoDownloadCmd (flags : Flags) (lf : LogoFlags)
    (identifier : string) (w : World) : option logoError * World :=
  if decide (logoDownloadPath lf ≠ "" ∧ logoDownloadDir lf ≠ "")
  then (Some ErrPathDirExclusive, w)
  else
    match GetLogo (mkLogoOptions identifier (logoFormat lf) (logoTheme lf)
                     (logoType lf) (logoFallback lf) (logoWidth lf)
                     (logoHeight lf)) with
    | inl msg => (Some (ErrGetLogo msg), w)
    | inr url =>
        let path :=
          if decide (logoDownloadPath lf = "") then defaultPath lf identifier url
          else logoDownloadPath lf in
        let dir := filepath_Dir path in
        match (if decide (dir ≠ ".") then MkdirAll (fs w) dir else inr (fs w)) with
        | inl e => (Some (ErrCreateDirectory dir e), w)
        | inr fs1 =>
            match downloadFile url path (setFS w fs1) with
            | (Some e, w) => (Some (ErrDownloadLogo e), w)
            | (None, w) =>
                let checked : option logoError :=
                  if decide (logoDownloadSHA256 lf ≠ "") then
                    match verifySHA256 (fs w) path (logoDownloadSHA256 lf) with
                    | Err e => Some (ErrAsIs e)
                    | Ok ok => if negb ok then Some (ErrSHA256Mismatch path)
                               else None
                    end
                  else None in
                match checked with
                | Some e => (Some e, w)
                | None =>
                    match resolveOutput flags with
                    | Err e => (Some (ErrAsIs e), w)
                    | Ok (FormatJSON, _) =>
                        match PrintJSON url path with
                        | inl msg => (Some (ErrPrintJSON msg), w)
                        | inr text => (None, printOut text w)
                        end
                    | Ok (FormatText, _) => (None, printOut (path +:+ LF) w)
                    end
                end
            end
        end
    end.

End with_env.

End LogoDownload.

(** ** Facts about the string functions *)

Module GoStringsFacts.
Import GoStrings.

Lemma append_cons (x : ascii) (a b : string) :
  String x a +:+ b = String x (a +:+ b).
Proof. reflexivity. Qed.

Lemma append_nil_l (a : string) : "" +:+ a = a.
Proof. reflexivity. Qed.

Lemma append_assoc (a b c : string) : (a +:+ b) +:+ c = a +:+ (b +:+ c).
Proof. induction a as [|x a IH]; [done|]. by rewrite !append_cons, IH. Qed.

Lemma append_nil_r (a : string) : a +:+ "" = a.
Proof. induction a as [|x a IH]; [done|]. by rewrite append_cons, IH. Qed.

(** No white-space rune stands anywhere in [s]. *)
Fixpoint noSpace (s : string) : bool :=
  match s with
  | "" => true
  | String _ s' => bool_decide (spaceWidth s = 0) && noSpace s'
  end.

(** [s] is empty or starts with an ASCII byte. *)
Definition asciiHead (s : string) : Prop :=
  match s with
  | "" => True
  | String c _ => (N_of_ascii c < 128)%N
  end.

Lemma rev_app_spec (a b : string) : String.rev_app a b = String.rev a +:+ b.
Proof.
  unfold String.rev. revert b. induction a as [|x a IH]; intros b; [done|].
  simpl. rewrite IH, (IH (String x "")), append_assoc. done.
Qed.

Lemma rev_cons (x : ascii) (a : string) :
  String.rev (String x a) = String.rev a +:+ String x "".
Proof. unfold String.rev at 1. simpl. apply rev_app_spec. Qed.

Lemma rev_app_distr (a b : string) :
  String.rev (a +:+ b) = String.rev b +:+ String.rev a.
Proof.
  induction a as [|x a IH]; [by rewrite append_nil_r|].
  by rewrite append_cons, !rev_cons, IH, append_assoc.
Qed.

Lemma rev_involutive (a : string) : String.rev (String.rev a) = a.
Proof.
  induction a as [|x a IH]; [done|].
  by rewrite rev_cons, rev_app_distr, IH.
Qed.

Lemma rev_nil_inv (a : string) : String.rev a = "" → a = "".
Proof. intros Hr. by rewrite <- (rev_involutive a), Hr. Qed.

Lemma append_eq_nil (a b : string) : a +:+ b = "" → a = "" ∧ b = "".
Proof. destruct a; [done|]. by rewrite append_cons. Qed.

(** Every byte of the encoding of a white-space rune beyond ASCII is at
    least 128. *)
Lemma spaceRune2_high c d :
  spaceRune2 c d = true → (128 ≤ N_of_ascii c ∧ 128 ≤ N_of_ascii d)%N.
Proof.
  unfold spaceRune2.
  repeat first [rewrite orb_true_iff | rewrite andb_true_iff].
  rewrite !N.eqb_eq. lia.
Qed.

Lemma spaceRune3_high c d e :
  spaceRune3 c d e = true →
  (128 ≤ N_of_ascii c ∧ 128 ≤ N_of_ascii d ∧ 128 ≤ N_of_ascii e)%N.
Proof.
  unfold spaceRune3.
  repeat first [rewrite orb_true_iff | rewrite andb_true_iff].
  rewrite !N.eqb_eq, !N.leb_le. lia.
Qed.

Lemma spaceRune2_ascii_l c d : (N_of_ascii c < 128)%N → spaceRune2 c d = false.
Proof.
  intros Hc. destruct (spaceRune2 c d) eqn:Hs; [|done].
  apply spaceRune2_high in Hs. lia.
Qed.

Lemma spaceRune2_ascii_r c d : (N_of_ascii d < 128)%N → spaceRune2 c d = false.
Proof.
  intros Hd. destruct (spaceRune2 c d) eqn:Hs; [|done].
  apply spaceRune2_high in Hs. lia.
Qed.

Lemma spaceRune3_ascii_1 c d e : (N_of_ascii c < 128)%N → spaceRune3 c d e = false.
Proof.
  intros Hc. destruct (spaceRune3 c d e) eqn:Hs; [|done].
  apply spaceRune3_high in Hs. lia.
Qed.

Lemma spaceRune3_ascii_2 c d e : (N_of_ascii d < 128)%N → spaceRune3 c d e = false.
Proof.
  intros Hd. destruct (spaceRune3 c d e) eqn:Hs; [|done].
  apply spaceRune3_high in Hs. lia.
Qed.

Lemma spaceRune3_ascii_3 c d e : (N_of_ascii e < 128)%N → spaceRune3 c d e = false.
Proof.
  intros He. destruct (spaceRune3 c d e) eqn:Hs; [|done].
  apply spaceRune3_high in Hs. lia.
Qed.

Lemma noSpace_cons c s :
  noSpace (String c s) = true ↔ spaceWidth (String c s) = 0 ∧ noSpace s = true.
Proof.
  change (noSpace (String c s))
    with (bool_decide (spaceWidth (String c s) = 0) && noSpace s).
  rewrite andb_true_iff, bool_decide_eq_true. done.
Qed.

Lemma noSpace_app_r a b : noSpace (a +:+ b) = true → noSpace b = true.
Proof.
  induction a as [|x a IH]; [done|].
  rewrite append_cons, noSpace_cons. intros [_ ?]. auto.
Qed.

(** A word followed by ASCII does not start with white space. *)
Lemma spaceWidth_word w t :
  noSpace w = true → w ≠ "" → asciiHead t → spaceWidth (w +:+ t) = 0.
Proof.
  intros Hw Hne Ht. destruct w as [|c w1]; [done|].
  apply noSpace_cons in Hw as [Hw _]. rewrite append_cons.
  unfold spaceWidth in *.
  destruct (asciiSpace c); [done|].
  destruct w1 as [|d w2].
  - rewrite append_nil_l. destruct t as [|x t]; [done|]. simpl in Ht.
    rewrite spaceRune2_ascii_r by done.
    destruct t as [|y t]; [done|].
    by rewrite spaceRune3_ascii_2.
  - rewrite append_cons. destruct (spaceRune2 c d); [done|].
    destruct w2 as [|e w3].
    + rewrite append_nil_l. destruct t as [|x t]; [done|]. simpl in Ht.
      by rewrite spaceRune3_ascii_3.
    + by rewrite append_cons.
Qed.

(** The mirror image: a word preceded by ASCII does not end with white
    space. *)
Lemma spaceWidthRev_word w t :
  noSpace w = true → w ≠ "" → asciiHead t →
  spaceWidthRev (String.rev w +:+ t) = 0.
Proof.
  intros Hw Hne Ht.
  rewrite <- (rev_involutive w) in Hw.
  destruct (String.rev w) as [|c r1] eqn:Hr; [by apply rev_nil_inv in Hr|].
  clear Hr Hne. rewrite append_cons. unfold spaceWidthRev.
  destruct r1 as [|d r2].
  - rewrite rev_cons, append_nil_l in Hw. apply noSpace_cons in Hw as [Hc _].
    unfold spaceWidth in Hc. destruct (asciiSpace c); [done|].
    rewrite append_nil_l. destruct t as [|x t]; [done|]. simpl in Ht.
    rewrite spaceRune2_ascii_l by done.
    destruct t as [|y t]; [done|].
    by rewrite spaceRune3_ascii_2.
  - rewrite append_cons. destruct r2 as [|e r3].
    + rewrite !rev_cons, !append_assoc in Hw. apply noSpace_app_r in Hw.
      rewrite !append_cons, !append_nil_l in Hw. apply noSpace_cons in Hw as [Hd Hw].
      apply noSpace_cons in Hw as [Hc _]. unfold spaceWidth in Hc, Hd.
      destruct (asciiSpace c); [done|]. destruct (asciiSpace d); [done|].
      destruct (spaceRune2 d c); [done|].
      rewrite append_nil_l. destruct t as [|x t]; [done|]. simpl in Ht.
      by rewrite spaceRune3_ascii_1.
    + rewrite !rev_cons, !append_assoc in Hw. apply noSpace_app_r in Hw.
      rewrite !append_cons, !append_nil_l in Hw. rewrite append_cons.
      apply noSpace_cons in Hw as [He Hw]. apply noSpace_cons in Hw as [Hd Hw].
      apply noSpace_cons in Hw as [Hc _]. unfold spaceWidth in Hc, Hd, He.
      destruct (asciiSpace c); [done|]. destruct (asciiSpace d); [done|].
      destruct (asciiSpace e); [done|].
      destruct (spaceRune2 d c); [done|]. destruct (spaceRune2 e d); [done|].
      by destruct (spaceRune3 e d c).
Qed.

Lemma dropSpaces_id width s : width s = 0 → dropSpaces width 0 s = s.
Proof. intros Hs. destruct s as [|c s]; [done|]. simpl. by rewrite Hs. Qed.

(** [TrimSpace] leaves a string alone that neither starts nor ends with
    white space. *)
Lemma TrimSpace_id s :
  spaceWidth s = 0 → spaceWidthRev (String.rev s) = 0 → TrimSpace s = s.
Proof.
  intros Hl Hr. unfold TrimSpace.
  by rewrite (dropSpaces_id _ s), dropSpaces_id, rev_involutive.
Qed.

Lemma FieldsLoop_cons cur c s :
  FieldsLoop 0 cur (String c s)
  = match spaceWidth (String c s) with
    | 0 => FieldsLoop 0 (Some (String c (default "" cur))) s
    | S w => closeField cur ++ FieldsLoop w None s
    end.
Proof. reflexivity. Qed.

(** The loop reads a word followed by ASCII into the open field. *)
Lemma FieldsLoop_word w t cur :
  noSpace w = true → asciiHead t →
  FieldsLoop 0 cur (w +:+ t)
  = FieldsLoop 0 (if decide (w = "") then cur
                  else Some (String.rev_app w (default "" cur))) t.
Proof.
  revert cur. induction w as [|c w IH]; intros cur Hw Ht; [done|].
  rewrite decide_False by done.
  rewrite append_cons, FieldsLoop_cons, <- append_cons, spaceWidth_word by done.
  apply noSpace_cons in Hw as [_ Hw]. rewrite IH by done.
  by destruct (decide (w = "")) as [->|].
Qed.

Lemma spaceWidth_space s : spaceWidth (String " " s) = 1.
Proof. reflexivity. Qed.

Lemma asciiHead_space s : asciiHead (String " " s).
Proof. by vm_compute. Qed.

(** A line of two words separated by two spaces has these two fields. *)
Lemma Fields_two_words a b :
  noSpace a = true → a ≠ "" → noSpace b = true → b ≠ "" →
  Fields (a +:+ "  " +:+ b) = [a; b].
Proof.
  intros Ha Hane Hb Hbne. unfold Fields.
  rewrite FieldsLoop_word by (done || apply asciiHead_space).
  rewrite decide_False, !append_cons, append_nil_l by done.
  rewrite FieldsLoop_cons, spaceWidth_space, FieldsLoop_cons, spaceWidth_space.
  rewrite <- (append_nil_r b), FieldsLoop_word by done.
  rewrite decide_False by done. simpl.
  by rewrite !rev_app_spec, !append_nil_r, !rev_involutive.
Qed.

(** A line of two words separated by two spaces is already trimmed. *)
Lemma TrimSpace_two_words a b :
  noSpace a = true → a ≠ "" → noSpace b = true → b ≠ "" →
  TrimSpace (a +:+ "  " +:+ b) = a +:+ "  " +:+ b.
Proof.
  intros Ha Hane Hb Hbne. apply TrimSpace_id.
  - apply spaceWidth_word; [done..|apply asciiHead_space].
  - rewrite !rev_app_distr, append_assoc.
    apply spaceWidthRev_word; [done..|apply asciiHead_space].
Qed.

Lemma CutPrefix_None s p : HasPrefix s p = false → CutPrefix s p = None.
Proof.
  revert s. induction p as [|a p IH]; intros [|b s]; simpl; try done.
  destruct (decide (a = b)); auto.
Qed.

Lemma TrimPrefix_id s p : HasPrefix s p = false → TrimPrefix s p = s.
Proof. intros Hp. unfold TrimPrefix. by rewrite CutPrefix_None. Qed.

(** No line feed in [s]. *)
Fixpoint noLF (s : string) : bool :=
  match s with
  | "" => true
  | String c s' => bool_decide (c ≠ ascii_of_nat 10) && noLF s'
  end.

Lemma noLF_app a b : noLF (a +:+ b) = noLF a && noLF b.
Proof.
  induction a as [|c a IH]; [done|].
  rewrite append_cons. simpl. by rewrite IH, andb_assoc.
Qed.

Lemma noSpace_noLF s : noSpace s = true → noLF s = true.
Proof.
  induction s as [|c s IH]; [done|].
  intros [Hc Hs]%noSpace_cons. simpl. rewrite IH, andb_true_r by done.
  apply bool_decide_eq_true. intros ->. by vm_compute in Hc.
Qed.

Lemma SplitLines_nonempty s : SplitLines s ≠ [].
Proof.
  destruct s as [|c s]; [done|]. simpl.
  destruct (decide _); [done|]. by destruct (SplitLines s).
Qed.

Lemma SplitLines_line b rest :
  noLF b = true → SplitLines (b +:+ LF +:+ rest) = b :: SplitLines rest.
Proof.
  induction b as [|c b IH]; intros Hb.
  - rewrite append_nil_l. unfold LF. by rewrite append_cons, append_nil_l.
  - simpl in Hb. apply andb_true_iff in Hb as [Hc Hb].
    apply bool_decide_eq_true in Hc.
    rewrite append_cons. simpl. rewrite decide_False by done. by rewrite IH.
Qed.

Lemma Builder_cons x xs : Builder (x :: xs) = x +:+ Builder xs.
Proof.
  unfold Builder. destruct xs as [|y xs]; simpl; [by rewrite append_nil_r|done].
Qed.

End GoStringsFacts.

(** ** Specification-level naming and the allocator lemmas *)

Module OutputSpec.
Import GoStrings GoStringsFacts Output.

(** The naming rule as the specification words it: no suffix for a type
    that occurs once, [-N] otherwise. *)
Definition VariableName (prefix semanticType : string)
    (occurrenceIndex totalOccurrencesOfType : nat) : string :=
  if decide (totalOccurrencesOfType = 1)
  then prefix +:+ "-" +:+ semanticType
  else prefix +:+ "-" +:+ semanticType +:+ "-" +:+ Itoa occurrenceIndex.

(** How often the semantic type [T] occurs among [xs]. *)
Definition occ {A} (ty : A → string) (T : string) (xs : list A) : nat :=
  length (filter (λ x, ty x = T) xs).

(** The variables emitted for the entries of type [T], in arrival order. *)
Definition ofType {A B} (ty : A → string) (T : string) (xs : list A)
    (out : list B) : list B :=
  (filter (λ p, ty p.1 = T) (zip xs out)).*2.

Section counting.
Context {A : Type} (ty : A → string).

Lemma occ_cons T x xs :
  occ ty T (x :: xs) = (if decide (ty x = T) then 1 else 0) + occ ty T xs.
Proof.
  unfold occ. rewrite filter_cons. by destruct (decide (ty x = T)).
Qed.

Lemma incr_total k m T :
  incr k m !!! T = (if decide (k = T) then 1 else 0) + m !!! T.
Proof.
  unfold incr. rewrite lookup_total_insert.
  by destruct (decide (k = T)) as [->|].
Qed.

Lemma foldl_incr_total xs m T :
  foldl (λ m x, incr (ty x) m) m xs !!! T = m !!! T + occ ty T xs.
Proof.
  revert m. induction xs as [|x xs IH]; intros m; simpl.
  - unfold occ. simpl. lia.
  - rewrite IH, incr_total, occ_cons. lia.
Qed.

Lemma countTypes_total xs T : countTypes ty xs !!! T = occ ty T xs.
Proof.
  unfold countTypes. rewrite foldl_incr_total, lookup_total_empty. done.
Qed.

Lemma ofType_cons {B} T x xs (y : B) ys :
  ofType ty T (x :: xs) (y :: ys)
  = (if decide (ty x = T) then [y] else []) ++ ofType ty T xs ys.
Proof.
  unfold ofType. simpl. rewrite filter_cons. simpl.
  by destruct (decide (ty x = T)).
Qed.
End counting.

Lemma colorLoop_length base tc ti colors :
  length (colorLoop base tc ti colors) = length colors.
Proof.
  revert ti. induction colors as [|c rest IH]; intros ti; simpl; [done|].
  destruct (decide _); simpl; by rewrite IH.
Qed.

Lemma colorLoop_values base tc ti colors :
  value <$> colorLoop base tc ti colors = c_Hex <$> colors.
Proof.
  revert ti. induction colors as [|c rest IH]; intros ti; simpl; [done|].
  destruct (decide _); simpl; by rewrite IH.
Qed.

(** The names the second loop gives to the entries of one type. *)
Lemma colorLoop_names base tc ti T colors :
  name <$> ofType c_Type T colors (colorLoop base tc ti colors)
  = if decide (1 < tc !!! T)
    then (λ j, base +:+ T +:+ "-" +:+ Itoa j)
           <$> seq (S (ti !!! T)) (occ c_Type T colors)
    else replicate (occ c_Type T colors) (base +:+ T).
Proof.
  revert ti. induction colors as [|c rest IH]; intros ti.
  - simpl. by destruct (decide _).
  - simpl. rewrite occ_cons.
    destruct (decide (1 < tc !!! c_Type c)) as [Hc|Hc];
      rewrite ofType_cons, fmap_app, IH;
      destruct (decide (c_Type c = T)) as [<-|Hne]; simpl;
      rewrite ?incr_total; repeat case_decide; try done; try lia.
Qed.

Lemma colorLoop_allocates base pfx colors T :
  (∀ ty, base +:+ ty = pfx +:+ "-" +:+ ty) →
  name <$> ofType c_Type T colors
             (colorLoop base (countTypes c_Type colors) ∅ colors)
  = (λ j, VariableName pfx T j (occ c_Type T colors))
      <$> seq 1 (occ c_Type T colors).
Proof.
  intros Hbase. rewrite colorLoop_names, countTypes_total, lookup_total_empty.
  unfold VariableName. destruct (decide (1 < occ c_Type T colors)) as [Hk|Hk].
  - apply list_fmap_ext. intros _ j _.
    rewrite decide_False by lia. apply Hbase.
  - destruct (occ c_Type T colors) as [|[|k]]; [done| |lia].
    simpl. by rewrite Hbase.
Qed.

(** C1. The colour allocator emits one variable per colour, in arrival
    order and carrying that colour's hex value; for every semantic type [T]
    that occurs [k] times, the variables of the type-[T] colours are named,
    in arrival order, [<prefix>-T] when [k = 1] and [<prefix>-T-1] ...
    [<prefix>-T-k] when [k > 1]. The names of a type are a function of its own
    count only, so a collision in one type leaves every other type's names
    alone. This holds for the unprefixed allocator (prefix [--color]) and for
    the brand-prefixed one (prefix [--<brand>-color]). *)
Theorem C1_color_variable_allocation (colors : list ColorInfo) (brand : string) :
  (length (buildColorVariables colors) = length colors
   ∧ value <$> buildColorVariables colors = c_Hex <$> colors
   ∧ ∀ T, name <$> ofType c_Type T colors (buildColorVariables colors)
          = (λ j, VariableName "--color" T j (occ c_Type T colors))
              <$> seq 1 (occ c_Type T colors))
  ∧ (length (buildColorVariablesWithPrefix colors brand) = length colors
     ∧ value <$> buildColorVariablesWithPrefix colors brand = c_Hex <$> colors
     ∧ ∀ T, name <$> ofType c_Type T colors
                       (buildColorVariablesWithPrefix colors brand)
            = (λ j, VariableName ("--" +:+ brand +:+ "-color") T j
                      (occ c_Type T colors))
                <$> seq 1 (occ c_Type T colors)).
Proof.
  unfold buildColorVariables, buildColorVariablesWithPrefix.
  repeat split;
    try apply colorLoop_length; try apply colorLoop_values;
    intros T; apply colorLoop_allocates; intros ty; [done|].
  by rewrite !append_assoc.
Qed.

(** The scenario of the specification: two accents and one light colour. *)
Example color_collision_scenario :
  cssLine <$> buildColorVariables
                [mkColorInfo "#FF0000" "accent" 0; mkColorInfo "#00FF00" "accent" 0;
                 mkColorInfo "#FFFFFF" "light" 0]
  = ["  --color-accent-1: #FF0000;" +:+ LF;
     "  --color-accent-2: #00FF00;" +:+ LF;
     "  --color-light: #FFFFFF;" +:+ LF].
Proof. vm_compute. reflexivity. Qed.

Lemma occ_single {A} (ty : A → string) (x : A) : occ ty (ty x) [x] = 1.
Proof. unfold occ. rewrite filter_cons, decide_True by done. done. Qed.

Lemma occ_double {A} (ty : A → string) (x : A) : occ ty (ty x) [x; x] = 2.
Proof. unfold occ. rewrite !filter_cons, !decide_True by done. done. Qed.

(** Whatever the font: alone it gets the unsuffixed name, followed by an
    exact duplicate it is still the only variable and is named [-1]. *)
Lemma duplicate_of_only_font_renames (f : FontInfo) :
  buildFontVariables [f]
  = [mkCssVar ("--font-" +:+ f_Type f) ("'" +:+ f_Name f +:+ "', sans-serif")]
  ∧ buildFontVariables [f; f]
    = [mkCssVar ("--font-" +:+ f_Type f +:+ "-" +:+ Itoa 1)
                ("'" +:+ f_Name f +:+ "', sans-serif")].
Proof.
  unfold buildFontVariables. split; simpl.
  - rewrite decide_False by set_solver.
    rewrite countTypes_total, occ_single. by rewrite decide_False by lia.
  - rewrite decide_False by set_solver.
    rewrite countTypes_total, occ_double. rewrite decide_True by lia.
    rewrite decide_True by set_solver.
    by rewrite incr_total, decide_True, lookup_total_empty.
Qed.

(** C2 (evaluation of the code). The occurrence counts are taken over the
    whole font list, before duplicates are skipped: appending an exact
    duplicate of the only [body] font makes the count of [body] two, and the
    one variable that is emitted changes from [--font-body] to
    [--font-body-1] (flat format) and from [body] to [body1] (module
    format). *)
Theorem C2_duplicate_font_changes_names :
  let inter := mkFontInfo "Inter" "body" in
  buildFontVariables [inter] = [mkCssVar "--font-body" "'Inter', sans-serif"]
  ∧ buildFontVariables ([inter] ++ [inter])
    = [mkCssVar "--font-body-1" "'Inter', sans-serif"]
  ∧ buildTailwindFonts [inter]
    = ["    body: ['" +:+ DQ +:+ "Inter" +:+ DQ +:+ "', 'sans-serif']," +:+ LF]
  ∧ buildTailwindFonts ([inter] ++ [inter])
    = ["    body1: ['" +:+ DQ +:+ "Inter" +:+ DQ +:+ "', 'sans-serif']," +:+ LF].
Proof. repeat split; vm_compute; reflexivity. Qed.

(** Curly braces of a block are balanced: [depth] braces are open before
    [s], none is closed before it was opened, none is left open. *)
Fixpoint balanced (depth : nat) (s : string) : bool :=
  match s with
  | "" => bool_decide (depth = 0)
  | String c s' =>
      if decide (c = "{"%char) then balanced (S depth) s'
      else if decide (c = "}"%char) then
        match depth with 0 => false | S d => balanced d s' end
      else balanced depth s'
  end.

(** C9. Batch export of exactly one entity is the single-entity export of
    that entity, byte for byte, in the flat format and in the module format.
    Batch export of no entity is the block [:root {], newline, [}] resp.
    [module.exports = {], newline, [}]: braces balanced, and the same text
    the single-entity emitter produces for an entity without colours and
    fonts (after its two header comment lines, in the module format). *)
Theorem C9_batch_single_agreement :
  (∀ r, FormatQuickCSSBatch [r] = FormatQuickCSS r)
  ∧ (∀ r, FormatQuickTailwindBatch [r] = FormatQuickTailwind r)
  ∧ FormatQuickCSSBatch [] = ":root {" +:+ LF +:+ "}"
  ∧ FormatQuickTailwindBatch [] = "module.exports = {" +:+ LF +:+ "}"
  ∧ balanced 0 (FormatQuickCSSBatch []) = true
  ∧ balanced 0 (FormatQuickTailwindBatch []) = true
  ∧ (∀ n d ll ld fav,
       FormatQuickCSS (mkQuickResult n d ll ld fav [] [])
       = FormatQuickCSSBatch [])
  ∧ (∀ n d ll ld fav,
       FormatQuickTailwind (mkQuickResult n d ll ld fav [] [])
       = "// Tailwind CSS config for " +:+ n +:+ LF
         +:+ "// Add to your tailwind.config.js theme.extend" +:+ LF
         +:+ FormatQuickTailwindBatch []).
Proof.
  repeat split; try reflexivity.
  intros n d ll ld fav. unfold FormatQuickTailwind, Builder. simpl.
  by rewrite !append_assoc.
Qed.

End OutputSpec.

(** ** The manifest: merge, rendering, parsing *)

Module ChecksumSpec.
Import GoStrings GoStringsFacts Errors Sys Checksum.

(** An entry the writer and the reader agree on: path and sum are
    non-empty and hold no white space, the sum does not start a comment,
    and the path carries neither of the prefixes the reader strips. *)
Definition roundTrips (path sum : string) : bool :=
  bool_decide (path ≠ "") && bool_decide (sum ≠ "")
  && noSpace path && noSpace sum
  && negb (HasPrefix sum "#")
  && negb (HasPrefix path "*") && negb (HasPrefix path "./").

Lemma roundTrips_spec path sum :
  roundTrips path sum = true →
  path ≠ "" ∧ sum ≠ "" ∧ noSpace path = true ∧ noSpace sum = true
  ∧ HasPrefix sum "#" = false
  ∧ HasPrefix path "*" = false ∧ HasPrefix path "./" = false.
Proof.
  unfold roundTrips. rewrite !andb_true_iff, !bool_decide_eq_true.
  rewrite !negb_true_iff. tauto.
Qed.

(** *** The merge loop *)

Lemma mergeEntry_lookup_in m es e :
  e ∈ es → Path e ≠ "" → Sum e ≠ "" →
  (∀ e', e' ∈ es → Path e' = Path e → Sum e' ≠ "" → Sum e' = Sum e) →
  foldl mergeEntry m es !! Path e = Some (Sum e).
Proof.
  intros Hin Hp Hs. induction es as [|x es IH] using rev_ind; intros Hsame.
  { by apply elem_of_nil in Hin. }
  rewrite foldl_snoc. unfold mergeEntry at 1.
  apply elem_of_app in Hin as [Hin|Hin%list_elem_of_singleton].
  - assert (foldl mergeEntry m es !! Path e = Some (Sum e)) as IH'.
    { apply IH; [done|]. intros e' He'. apply Hsame, elem_of_app. by left. }
    destruct (decide _) as [|Hx]; [done|].
    destruct (decide (Path x = Path e)) as [Heq|Hne].
    + rewrite Heq, lookup_insert_eq. f_equal. apply Hsame; [|done|tauto].
      apply elem_of_app. right. by apply list_elem_of_singleton.
    + by rewrite lookup_insert_ne.
  - subst x. rewrite decide_False by tauto. by rewrite lookup_insert_eq.
Qed.

Lemma mergeEntry_lookup_notin m es k :
  (∀ e, e ∈ es → Path e = k → Path e = "" ∨ Sum e = "") →
  foldl mergeEntry m es !! k = m !! k.
Proof.
  induction es as [|x es IH] using rev_ind; intros Hout; [done|].
  rewrite foldl_snoc. unfold mergeEntry at 1.
  destruct (decide _) as [|Hx].
  - apply IH. intros e He. apply Hout, elem_of_app. by left.
  - rewrite lookup_insert_ne.
    + apply IH. intros e He. apply Hout, elem_of_app. by left.
    + intros Heq. apply Hx, Hout; [|done].
      apply elem_of_app. right. by apply list_elem_of_singleton.
Qed.

Lemma NoDup_Path_inj es e e' :
  NoDup (Path <$> es) → e ∈ es → e' ∈ es → Path e' = Path e → e' = e.
Proof.
  induction es as [|x es IH]; intros Hnd He He' Heq.
  { by apply elem_of_nil in He. }
  rewrite fmap_cons in Hnd. apply NoDup_cons in Hnd as [Hx Hnd].
  apply elem_of_cons in He as [->|He]; apply elem_of_cons in He' as [->|He'];
    [done| | |by apply IH].
  - exfalso. apply Hx. rewrite <- Heq. by apply list_elem_of_fmap_2.
  - exfalso. apply Hx. rewrite Heq. by apply list_elem_of_fmap_2.
Qed.

(** With distinct paths the order of the entries does not matter. *)
Lemma mergeEntry_perm m es es' :
  es' ≡ₚ es → NoDup (Path <$> es) →
  foldl mergeEntry m es' = foldl mergeEntry m es.
Proof.
  intros Hperm Hnd. apply map_eq. intros k.
  destruct (decide (Exists (λ e, Path e = k ∧ Path e ≠ "" ∧ Sum e ≠ "") es))
    as [Hex|Hex].
  - apply Exists_exists in Hex as (e & He & <- & Hp & Hs).
    rewrite !mergeEntry_lookup_in; try done.
    + intros e' He' Heq _. f_equal. by apply (NoDup_Path_inj es).
    + by rewrite Hperm.
    + intros e' He' Heq _. f_equal. apply (NoDup_Path_inj es); [done..| |done].
      by rewrite <- Hperm.
  - rewrite !mergeEntry_lookup_notin; [done| |].
    + intros e He Hk. destruct (decide (Path e = "")); [tauto|].
      destruct (decide (Sum e = "")); [tauto|].
      exfalso. apply Hex, Exists_exists. eauto.
    + intros e He Hk. destruct (decide (Path e = "")); [tauto|].
      destruct (decide (Sum e = "")); [tauto|].
      exfalso. apply Hex, Exists_exists. rewrite Hperm in He. eauto.
Qed.

(** *** The sorted keys *)

Lemma sortedKeys_perm (m : gmap string string) :
  sortedKeys m ≡ₚ (map_to_list m).*1.
Proof. apply merge_sort_Permutation. Qed.

Lemma elem_of_sortedKeys (m : gmap string string) k :
  k ∈ sortedKeys m ↔ is_Some (m !! k).
Proof.
  rewrite sortedKeys_perm, list_elem_of_fmap. split.
  - intros ([k' v] & -> & Hin). apply elem_of_map_to_list in Hin. eauto.
  - intros [v Hv]. exists (k, v). split; [done|]. by apply elem_of_map_to_list.
Qed.

Lemma sortedKeys_sorted (m : gmap string string) :
  StronglySorted String.le (sortedKeys m).
Proof. apply (StronglySorted_merge_sort String.le). Qed.

Lemma sortedKeys_NoDup (m : gmap string string) : NoDup (sortedKeys m).
Proof. rewrite sortedKeys_perm. apply NoDup_fst_map_to_list. Qed.

(** [sort.Strings] gives the same list whatever order [range] produced. *)
Lemma sortedKeys_any_order (m : gmap string string) ks :
  ks ≡ₚ (map_to_list m).*1 → merge_sort String.le ks = sortedKeys m.
Proof.
  intros Hks. apply (Sorted_unique String.le).
  - apply (Sorted_merge_sort String.le).
  - apply (Sorted_merge_sort String.le).
  - by rewrite merge_sort_Permutation, sortedKeys_perm.
Qed.

(** *** Reading back what was rendered *)

Lemma parseLine_empty m : parseLine m "" = m.
Proof. reflexivity. Qed.

Lemma HasPrefix_app_l h t p :
  h ≠ "" → HasPrefix h (String p "") = false →
  HasPrefix (h +:+ t) (String p "") = false.
Proof.
  destruct h as [|c h]; [done|]. intros _. rewrite append_cons. simpl.
  by destruct (decide (p = c)).
Qed.

Lemma parseLine_entry m sum path :
  roundTrips path sum = true →
  parseLine m (sum +:+ "  " +:+ path) = <[path := sum]> m.
Proof.
  intros (Hp & Hs & Hnp & Hns & Hhash & Hstar & Hdot)%roundTrips_spec.
  unfold parseLine. rewrite TrimSpace_two_words by done.
  rewrite decide_False by (intros [? _]%append_eq_nil; done).
  rewrite HasPrefix_app_l by done.
  rewrite Fields_two_words by done.
  rewrite (TrimPrefix_id path "*") by done.
  rewrite (TrimPrefix_id path "./") by done.
  by rewrite decide_True.
Qed.

Lemma roundTrips_noLF path sum :
  roundTrips path sum = true → noLF (sum +:+ "  " +:+ path) = true.
Proof.
  intros (_ & _ & Hnp & Hns & _)%roundTrips_spec.
  rewrite !noLF_app, (noSpace_noLF sum), (noSpace_noLF path) by done.
  reflexivity.
Qed.

Lemma line_then_rest (sum path rest : string) :
  (sum +:+ "  " +:+ path +:+ LF) +:+ rest
  = (sum +:+ "  " +:+ path) +:+ LF +:+ rest.
Proof. by rewrite !append_assoc. Qed.

Lemma parse_rendered_lines (merged m : gmap string string) ks :
  (∀ k, k ∈ ks → roundTrips k (merged !!! k) = true) →
  foldl parseLine m (SplitLines (Builder (manifestLine merged <$> ks)))
  = foldl (λ m k, <[k := merged !!! k]> m) m ks.
Proof.
  revert m. induction ks as [|k ks IH]; intros m Hwf; [done|].
  rewrite fmap_cons, Builder_cons. unfold manifestLine at 1.
  rewrite line_then_rest.
  rewrite SplitLines_line by (apply roundTrips_noLF, Hwf; left).
  simpl. rewrite parseLine_entry by (apply Hwf; left).
  apply IH. intros k' Hk'. apply Hwf. by right.
Qed.

Lemma foldl_insert_lookup (merged m : gmap string string) ks k :
  foldl (λ m k, <[k := merged !!! k]> m) m ks !! k
  = if decide (k ∈ ks) then Some (merged !!! k) else m !! k.
Proof.
  revert m. induction ks as [|x ks IH]; intros m; simpl.
  { destruct (decide (k ∈ [])) as [Hin|]; [by apply elem_of_nil in Hin|done]. }
  rewrite IH.
  destruct (decide (k ∈ ks)) as [Hin|Hin];
    destruct (decide (k ∈ x :: ks)) as [Hin'|Hin']; try done.
  - exfalso. apply Hin'. by right.
  - apply elem_of_cons in Hin' as [->|?]; [|done]. by rewrite lookup_insert_eq.
  - rewrite lookup_insert_ne; [done|]. intros ->. apply Hin'. by left.
Qed.

(** Parsing the rendering of a map gives the map back, when its entries are
    of the kind the reader and the writer agree on. *)
Lemma parse_manifestText (merged : gmap string string) :
  (∀ k v, merged !! k = Some v → roundTrips k v = true) →
  foldl parseLine ∅ (SplitLines (manifestText merged)) = merged.
Proof.
  intros Hwf. unfold manifestText. rewrite parse_rendered_lines.
  - apply map_eq. intros k. rewrite foldl_insert_lookup.
    destruct (decide (k ∈ sortedKeys merged)) as [Hin|Hin].
    + apply elem_of_sortedKeys in Hin as [v Hv].
      by rewrite (lookup_total_correct _ _ _ Hv).
    + rewrite lookup_empty. symmetry. apply eq_None_not_Some.
      by rewrite <- elem_of_sortedKeys.
  - intros k [v Hv]%elem_of_sortedKeys.
    rewrite (lookup_total_correct _ _ _ Hv). by apply Hwf.
Qed.

(** With distinct, well-formed entries the merge loop builds the map of the
    entry list. *)
Lemma merged_list_to_map es :
  NoDup (Path <$> es) →
  Forall (λ e, Path e ≠ "" ∧ Sum e ≠ "") es →
  foldl mergeEntry ∅ es = list_to_map ((λ e, (Path e, Sum e)) <$> es).
Proof.
  intros Hnd Hok. rewrite Forall_forall in Hok.
  assert (((λ e, (Path e, Sum e)) <$> es).*1 = Path <$> es) as Hfst.
  { rewrite <- list_fmap_compose. done. }
  apply map_eq. intros k.
  destruct (list_to_map ((λ e, (Path e, Sum e)) <$> es) !! k) as [v|] eqn:Hk.
  - apply elem_of_list_to_map in Hk; [|by rewrite Hfst].
    apply list_elem_of_fmap in Hk as (e & [= -> ->] & He).
    destruct (Hok e He). apply mergeEntry_lookup_in; try done.
    intros e' He' Heq _. f_equal. by apply (NoDup_Path_inj es).
  - apply not_elem_of_list_to_map in Hk. rewrite Hfst in Hk.
    rewrite mergeEntry_lookup_notin; [done|].
    intros e He <-. exfalso. apply Hk. by apply list_elem_of_fmap_2.
Qed.

(** *** The claims about [writeSHA256Manifest] *)

(** What [writeSHA256Manifest] returns once the text is fixed. *)
Definition written (fs : FS) (path text : string) : result FS :=
  match WriteFile fs path text with
  | inl e => Err (ErrOS e)
  | inr fs' => Ok fs'
  end.

(** The existing manifest as the append mode sees it: the parsed file, or
    nothing when it cannot be read. *)
Definition existingManifest (fs : FS) (path : string) : gmap string string :=
  match parseSHA256Manifest fs path with
  | Ok existing => existing
  | Err _ => ∅
  end.

(** The merge of C3, for the entry list [entries] appended at [path]. *)
Definition sortedMerge (fs : FS) (path : string) (entries : list checksumEntry)
    : Prop :=
  ∃ (merged : gmap string string) (paths : list string),
    (* the file holds one line per key of the merged map, *)
    writeSHA256Manifest fs path entries true
    = written fs path
        (Builder ((λ p, merged !!! p +:+ "  " +:+ p +:+ LF) <$> paths))
    (* in ascending order of the keys, each key once; *)
    ∧ StronglySorted String.le paths ∧ NoDup paths
    ∧ (∀ k, k ∈ paths ↔ is_Some (merged !! k))
    (* a new entry with a path and a sum replaces what was recorded under
       its path (the entries of that path agree on the sum, as they do when
       paths are unique); *)
    ∧ (∀ e, e ∈ entries → Path e ≠ "" → Sum e ≠ "" →
         (∀ e', e' ∈ entries → Path e' = Path e → Sum e' ≠ "" → Sum e' = Sum e) →
         merged !! Path e = Some (Sum e))
    (* keys without such a new entry keep what the existing manifest had; *)
    ∧ (∀ k, (∀ e, e ∈ entries → Path e = k → Path e = "" ∨ Sum e = "") →
         merged !! k = existingManifest fs path !! k)
    (* and the order of the new entries does not matter. *)
    ∧ (∀ entries', entries' ≡ₚ entries → NoDup (Path <$> entries) →
         writeSHA256Manifest fs path entries' true
         = writeSHA256Manifest fs path entries true).

(** C3 (as amended). Appending a non-empty entry list parses the manifest
    at the path (one that cannot be read counts as empty), lets every new
    entry that has a path and a sum overwrite the entry of the same path,
    keeps the other keys, and writes the merged map sorted by path
    ascending, one line of sum, two spaces and path per key, whatever the
    order of the input. New entries with an empty path or sum are passed
    over. *)
Theorem C3_manifest_sorted_merge (fs : FS) (path : string)
    (entries : list checksumEntry) :
  entries ≠ [] → sortedMerge fs path entries.
Proof.
  intros Hne.
  exists (foldl mergeEntry (existingManifest fs path) entries).
  exists (sortedKeys (foldl mergeEntry (existingManifest fs path) entries)).
  assert (∀ es : list checksumEntry, es ≠ [] → length es ≠ 0) as Hlen.
  { by intros [|]. }
  repeat split.
  - unfold writeSHA256Manifest. rewrite decide_False by auto. done.
  - apply sortedKeys_sorted.
  - apply sortedKeys_NoDup.
  - by intros ?%elem_of_sortedKeys.
  - by intros ?%elem_of_sortedKeys.
  - intros e. apply mergeEntry_lookup_in.
  - apply mergeEntry_lookup_notin.
  - intros entries' Hperm Hnd. unfold writeSHA256Manifest.
    rewrite !decide_False; [|auto|].
    + fold (existingManifest fs path). by rewrite (mergeEntry_perm _ entries).
    + apply Hlen. intros ->. by apply Permutation_nil_l in Hperm.
Qed.

(** C4 (as amended). A manifest written without append and parsed again is
    the map of the entries written, when their paths are distinct, every
    entry is of the kind the reader and the writer agree on ([roundTrips]),
    and a file already at the path can be read. *)
Theorem C4_manifest_round_trip (fs fs' : FS) (path : string)
    (entries : list checksumEntry) :
  NoDup (Path <$> entries) →
  Forall (λ e, roundTrips (Path e) (Sum e) = true) entries →
  (∀ f, fs !! path = Some (File f) → readable f = true) →
  writeSHA256Manifest fs path entries false = Ok fs' →
  parseSHA256Manifest fs' path
  = Ok (list_to_map ((λ e, (Path e, Sum e)) <$> entries)).
Proof.
  intros Hnd Hwf Hread. unfold writeSHA256Manifest.
  destruct (decide _); [done|].
  assert (foldl mergeEntry ∅ entries
          = list_to_map ((λ e, (Path e, Sum e)) <$> entries)) as Hmerged.
  { apply merged_list_to_map; [done|]. eapply Forall_impl; [done|].
    intros e He%roundTrips_spec. tauto. }
  rewrite Hmerged.
  set (merged := list_to_map ((λ e, (Path e, Sum e)) <$> entries)).
  assert (foldl parseLine ∅ (SplitLines (manifestText merged)) = merged)
    as Hparse.
  { apply parse_manifestText. intros k v Hk.
    apply elem_of_list_to_map_2, list_elem_of_fmap in Hk as (e & [= -> ->] & He).
    rewrite Forall_forall in Hwf. by apply Hwf. }
  unfold WriteFile, parseSHA256Manifest, ReadFile.
  destruct (fs !! path) as [[f|]|] eqn:Hf; [|done|].
  - destruct (writable f); [|done]. intros [= <-].
    rewrite lookup_insert_eq. simpl. rewrite (Hread f) by done.
    by rewrite Hparse.
  - intros [= <-]. rewrite lookup_insert_eq. simpl. by rewrite Hparse.
Qed.

(** C5 (as amended). [writeSHA256Manifest] fails with the error for an
    empty write exactly when the entry list is empty, with and without
    append. *)
Theorem C5_empty_write_rejected (fs : FS) (path : string)
    (entries : list checksumEntry) (appendExisting : bool) :
  writeSHA256Manifest fs path entries appendExisting = Err ErrNoDownloadedFiles
  ↔ entries = [].
Proof.
  unfold writeSHA256Manifest. split.
  - destruct (decide _) as [Hlen|]; [by destruct entries|].
    by destruct (WriteFile _ _ _).
  - by intros ->.
Qed.

(** C10. In append mode a manifest that cannot be parsed, because it is
    missing or because reading the file that is there fails, counts as
    empty: the call does what it does without append, writes the new
    entries alone, and does not return the read error. *)
Theorem C10_unreadable_manifest_is_empty (fs : FS) (path : string)
    (entries : list checksumEntry) (e : error) :
  parseSHA256Manifest fs path = Err e →
  writeSHA256Manifest fs path entries true
  = writeSHA256Manifest fs path entries false
  ∧ writeSHA256Manifest fs path entries true ≠ Err e
  ∧ (entries ≠ [] →
     writeSHA256Manifest fs path entries true
     = written fs path (manifestText (foldl mergeEntry ∅ entries)))
  ∧ (∀ fs', writeSHA256Manifest fs path entries true = Ok fs' →
       ∃ f, fs' !! path = Some (File f)
            ∧ data f = manifestText (foldl mergeEntry ∅ entries)).
Proof.
  intros Hparse. unfold writeSHA256Manifest. rewrite Hparse.
  repeat split.
  - unfold parseSHA256Manifest in Hparse.
    destruct (ReadFile fs path); [|done]. injection Hparse as <-.
    destruct (decide _); [done|]. by destruct (WriteFile _ _ _).
  - intros Hne. rewrite decide_False; [done|]. by destruct entries.
  - destruct (decide _); [done|]. unfold WriteFile.
    destruct (fs !! path) as [[f|]|]; [|done|].
    + destruct (writable f); [|done]. intros fs' [= <-].
      eexists. by rewrite lookup_insert_eq.
    + intros fs' [= <-]. eexists. by rewrite lookup_insert_eq.
Qed.

(** C3, the claim as written fails: a new entry without a sum leaves the
    entry of its path as it was, and an empty list is refused in append mode
    too, with nothing written. *)
Lemma C3_counterexample :
  let fs : FS := {[ "m" := File (mkFile true true ("1  A" +:+ LF)) ]} in
  (∃ fs', writeSHA256Manifest fs "m" [mkEntry "A" ""] true = Ok fs'
          ∧ ReadFile fs' "m" = inr ("1  A" +:+ LF))
  ∧ writeSHA256Manifest fs "m" [] true = Err ErrNoDownloadedFiles.
Proof. split; [eexists; split|]; vm_compute; reflexivity. Qed.

(** C3 at work: the manifest holds [A:1], [B:2] is appended. *)
Lemma C3_witness :
  let fs : FS := {[ "m" := File (mkFile true true ("1  A" +:+ LF)) ]} in
  [mkEntry "B" "2"] ≠ [] ∧ sortedMerge fs "m" [mkEntry "B" "2"].
Proof.
  split; [discriminate|]. apply C3_manifest_sorted_merge. discriminate.
Defined.

(** The scenario of the specification: [A:1] written, [B:2] appended, then
    [A:9] appended. *)
Example manifest_append_scenario :
  ∃ fs1 fs2 fs3,
    writeSHA256Manifest ∅ "m" [mkEntry "A" "1"] false = Ok fs1
    ∧ writeSHA256Manifest fs1 "m" [mkEntry "B" "2"] true = Ok fs2
    ∧ ReadFile fs2 "m" = inr ("1  A" +:+ LF +:+ "2  B" +:+ LF)
    ∧ writeSHA256Manifest fs2 "m" [mkEntry "A" "9"] true = Ok fs3
    ∧ ReadFile fs3 "m" = inr ("9  A" +:+ LF +:+ "2  B" +:+ LF).
Proof. do 3 eexists. repeat split; vm_compute; reflexivity. Qed.

(** C4, the claim as written fails: a path with a space in it is cut at
    the space when the manifest is read. *)
Lemma C4_counterexample :
  let entries := [mkEntry "my logo.svg" "ab"] in
  entries ≠ [] ∧ NoDup (Path <$> entries)
  ∧ ∃ fs', writeSHA256Manifest ∅ "m" entries false = Ok fs'
      ∧ parseSHA256Manifest fs' "m" = Ok {[ "my" := "ab" ]}
      ∧ ({[ "my" := "ab" ]} : gmap string string)
        ≠ list_to_map ((λ e, (Path e, Sum e)) <$> entries).
Proof.
  split; [discriminate|]. split; [apply NoDup_singleton|].
  eexists. split; [vm_compute; reflexivity|].
  split; [vm_compute; reflexivity|].
  intros Hm.
  assert (Hl := f_equal (λ m : gmap string string, m !! "my logo.svg") Hm).
  vm_compute in Hl. discriminate.
Qed.

Lemma C4_witness :
  let entries := [mkEntry "b/logo.svg" "22"; mkEntry "a.svg" "11"] in
  let fs' : FS :=
    {[ "m" := File (mkFile true true
                      ("11  a.svg" +:+ LF +:+ "22  b/logo.svg" +:+ LF)) ]} in
  parseSHA256Manifest fs' "m"
  = Ok (list_to_map ((λ e, (Path e, Sum e)) <$> entries)).
Proof.
  intros entries fs'. apply (C4_manifest_round_trip ∅ fs' "m" entries).
  - apply (bool_decide_unpack _). vm_compute. reflexivity.
  - repeat constructor.
  - intros f Hf. vm_compute in Hf. discriminate.
  - vm_compute. reflexivity.
Defined.

(** C5, the claim as written fails: an empty list is refused in append mode
    as well. *)
Lemma C5_counterexample :
  ¬ (writeSHA256Manifest ∅ "m" [] true = Err ErrNoDownloadedFiles
     ↔ ([] : list checksumEntry) = [] ∧ true = false).
Proof. intros [Hfails _]. destruct (Hfails eq_refl) as [_ ?]. discriminate. Qed.

(** C10 at work: a manifest that is there, cannot be read, and can be
    written. *)
Lemma C10_witness :
  let fs : FS := {[ "m" := File (mkFile false true ("1  A" +:+ LF)) ]} in
  let entries := [mkEntry "B" "2"] in
  parseSHA256Manifest fs "m" = Err (ErrReadManifest EACCES)
  ∧ writeSHA256Manifest fs "m" entries true
    = Ok {[ "m" := File (mkFile false true ("2  B" +:+ LF)) ]}
  ∧ writeSHA256Manifest fs "m" entries true
    = writeSHA256Manifest fs "m" entries false
  ∧ writeSHA256Manifest fs "m" entries true ≠ Err (ErrReadManifest EACCES).
Proof.
  intros fs entries.
  destruct (C10_unreadable_manifest_is_empty fs "m" entries
              (ErrReadManifest EACCES) eq_refl) as (Hsame & Hnot & _ & _).
  split; [vm_compute; reflexivity|]. split; [vm_compute; reflexivity|].
  split; [exact Hsame|exact Hnot].
Defined.

(** *** The claim about [verifySHA256ManifestEntry] *)

Section verify.
Context `{GoLib}.

(** The lookup in the words of the specification: the root-relative path
    first, when there is a root and the relative path means something, then
    the base name. *)
Definition manifestLookup (path root : string) (manifest : gmap string string)
    : option string :=
  let byBase := manifest !! filepath_Base path in
  if decide (root = "") then byBase
  else
    match filepath_Rel root path with
    | Some rel =>
        if decide (rel = "" ∨ rel = ".") then byBase
        else match manifest !! rel with
             | Some expected => Some expected
             | None => byBase
             end
    | None => byBase
    end.

Lemma lookupKeys_manifestLookup path root manifest :
  lookupKeys manifest (entryKeys path root)
  = match manifestLookup path root manifest with
    | Some expected => (expected, true)
    | None => ("", false)
    end.
Proof.
  unfold entryKeys, manifestLookup.
  destruct (decide (root ≠ "")) as [Hr|Hr].
  - rewrite decide_False by done.
    destruct (filepath_Rel root path) as [rel|]; simpl.
    + destruct (decide (rel ≠ "" ∧ rel ≠ ".")) as [Hrel|Hrel].
      * rewrite decide_False by tauto. simpl.
        destruct (manifest !! rel); [done|]. by destruct (manifest !! _).
      * rewrite decide_True.
        { simpl. by destruct (manifest !! _). }
        destruct (decide (rel = "")); [tauto|].
        destruct (decide (rel = ".")); tauto.
    + by destruct (manifest !! _).
  - rewrite decide_True by (by destruct (decide (root = ""))).
    simpl. by destruct (manifest !! _).
Qed.

(** C6. For every file path, root directory and manifest map,
    [verifySHA256ManifestEntry] looks the file up by its root-relative path
    first (when the root is not empty and the relative path is neither
    empty nor the dot) and by its base name otherwise. Without a matching
    key it fails with the no-manifest-entry error; with one, and the file
    hashed, it fails with the expected-sum error exactly when the digest is
    not the recorded sum. The two errors differ, and each arises in its own
    case only. (Where no manifest was loaded, the nil map of the source,
    nothing is checked.) *)
Theorem C6_manifest_lookup_and_errors (fs : FS) (path root : string)
    (manifest : gmap string string) :
  verifySHA256ManifestEntry fs path root None = Ok ()
  ∧ verifySHA256ManifestEntry fs path root (Some manifest)
  = match manifestLookup path root manifest with
    | None => Err (ErrNoManifestEntry (filepath_Base path))
    | Some expected =>
        match computeSHA256 fs path with
        | Err e => Err e
        | Ok sum =>
            if EqualFold sum (TrimSpace expected) then Ok ()
            else Err (ErrExpected expected)
        end
    end
  ∧ (∀ base expected, ErrNoManifestEntry base ≠ ErrExpected expected)
  ∧ (∀ base,
       verifySHA256ManifestEntry fs path root (Some manifest)
       = Err (ErrNoManifestEntry base)
       ↔ manifestLookup path root manifest = None ∧ base = filepath_Base path)
  ∧ (∀ expected,
       verifySHA256ManifestEntry fs path root (Some manifest)
       = Err (ErrExpected expected)
       ↔ manifestLookup path root manifest = Some expected
         ∧ ∃ sum, computeSHA256 fs path = Ok sum
                  ∧ EqualFold sum (TrimSpace expected) = false).
Proof.
  assert (verifySHA256ManifestEntry fs path root (Some manifest)
          = match manifestLookup path root manifest with
            | None => Err (ErrNoManifestEntry (filepath_Base path))
            | Some expected =>
                match computeSHA256 fs path with
                | Err e => Err e
                | Ok sum =>
                    if EqualFold sum (TrimSpace expected) then Ok ()
                    else Err (ErrExpected expected)
                end
            end) as Heq.
  { unfold verifySHA256ManifestEntry, verifySHA256.
    rewrite lookupKeys_manifestLookup.
    destruct (manifestLookup path root manifest) as [expected|]; simpl; [|done].
    destruct (computeSHA256 fs path) as [sum|e]; [|done].
    by destruct (EqualFold sum (TrimSpace expected)). }
  split; [done|]. split; [exact Heq|]. split; [done|]. rewrite Heq. split.
  - intros base. destruct (manifestLookup path root manifest) as [expected|].
    + split; [|by intros [? _]].
      unfold computeSHA256. destruct (fs !! path) as [[f|]|]; try done.
      * destruct (readable f); [|done]. by destruct (EqualFold _ _).
    + split; [by intros [= ->]|by intros [_ ->]].
  - intros x. destruct (manifestLookup path root manifest) as [expected|].
    + unfold computeSHA256. destruct (fs !! path) as [[f|]|].
      * destruct (readable f).
        -- destruct (EqualFold _ _) eqn:Hfold.
           ++ split; [done|]. intros ([= <-] & sum & [= <-] & Hne). congruence.
           ++ split; [intros [= <-]; eauto|]. by intros ([= <-] & _).
        -- split; [done|]. by intros (_ & sum & ? & _).
      * split; [done|]. by intros (_ & sum & ? & _).
      * split; [done|]. by intros (_ & sum & ? & _).
    + split; [done|]. by intros [? _].
Qed.

End verify.

End ChecksumSpec.

(** ** The [quick] command: validation and download failures *)

Module QuickSpec.
Import GoStrings Errors Sys Output Checksum Quick.

Section orchestrator.
Context `{GoLib} `{Env}.

(** The fetch loop sends one brand request per argument, in order, and
    touches neither the files nor the primary stream. *)
Lemma fetch_loop_network args results fetchErrors w results' fetchErrors' w' :
  foldl fetchBrand (results, fetchErrors, w) args = (results', fetchErrors', w') →
  network w' = network w ++ (BrandRequest <$> args)
  ∧ fs w' = fs w ∧ stdout w' = stdout w.
Proof.
  revert results fetchErrors w.
  induction args as [|domain args IH]; intros results fetchErrors w; simpl.
  - intros [= <- <- <-]. by rewrite app_nil_r.
  - destruct (GetBrand domain) as [msg|brand]; intros Hrun;
      apply IH in Hrun as (-> & -> & ->); simpl;
      by rewrite <- app_assoc.
Qed.

(** Without a conflict of output formats and without a download directory,
    every run, also one that ends in one of the three manifest-flag errors,
    has sent the brand requests of all its arguments. *)
Lemma manifest_flags_checked_after_fetch flags args w r w' :
  cssOutput flags && bool_decide (outputFormat flags = "json") = false →
  tailwindOutput flags && bool_decide (outputFormat flags = "json") = false →
  tailwindOutput flags && cssOutput flags = false →
  downloadDir flags = "" →
  runQuickCmd flags args w = (r, w') →
  network w' = network w ++ (BrandRequest <$> args).
Proof.
  intros H1 H2 H3 Hdir. unfold runQuickCmd. rewrite H1, H2, H3.
  destruct (foldl fetchBrand ([], [], w) args) as [[results fetchErrors] w1]
    eqn:Hfetch.
  apply fetch_loop_network in Hfetch as (Hnet & _ & _).
  destruct (decide (length results = 0)); [by intros [= <- <-]|].
  destruct (resolveOutput flags) as [[format colorize]|e]; [|by intros [= <- <-]].
  rewrite decide_False by (by rewrite Hdir; intros []).
  repeat destruct (decide _); try destruct (quickSHA256ManifestAppend flags);
    by intros [= <- <-].
Qed.

(** C7 (as amended). A conflict between the output formats, CSS with JSON,
    Tailwind with JSON or Tailwind with CSS, ends the run with its error
    before anything else happens: no brand is fetched, nothing is printed,
    nothing is downloaded. *)
Theorem C7_format_conflicts_fail_fast (flags : Flags) (args : list string)
    (w : World) :
  (cssOutput flags = true ∧ outputFormat flags = "json")
  ∨ (tailwindOutput flags = true ∧ outputFormat flags = "json")
  ∨ (tailwindOutput flags = true ∧ cssOutput flags = true) →
  ∃ e, runQuickCmd flags args w = (Some e, w)
       ∧ (e = ErrCSSJSON ∨ e = ErrTailwindJSON ∨ e = ErrTailwindCSS).
Proof.
  intros Hconflict. unfold runQuickCmd.
  destruct (cssOutput flags) eqn:Hcss, (tailwindOutput flags) eqn:Htw,
    (bool_decide (outputFormat flags = "json")) eqn:Hjson; simpl;
    first [ by (eexists; split; [reflexivity|tauto])
          | exfalso; destruct Hconflict as [[? Hj]|[[? Hj]|[? ?]]];
            try discriminate; by apply bool_decide_eq_false in Hjson ].
Qed.

(** *** Downloads *)

(** Without strict verification the loop over the assets of a brand does
    not return an error. *)
Lemma downloadLoop_not_fatal flags targetDir manifest downloads entries w :
  quickSHA256ManifestVerify flags = false ∨ manifest = None →
  (downloadLoop flags targetDir manifest downloads entries w).1.1 = None.
Proof.
  intros Hlax. revert entries w.
  induction downloads as [|[url filename] rest IH]; intros entries w; [done|].
  simpl. destruct (downloadFile _ _ w) as [[err|] w1]; [apply IH|].
  set (w2 := if quickSHA256 flags then _ else _).
  assert ((match manifest with
           | None => (None, w2)
           | Some _ =>
               match verifySHA256ManifestEntry (fs w2)
                       (filepath_Join targetDir filename)
                       (downloadDir flags) manifest with
               | Err err =>
                   (if quickSHA256ManifestVerify flags then Some err else None,
                    printErr (LogVerifyFailed filename err) w2)
               | Ok _ => (None, w2)
               end
           end).1 = None) as Hverified.
  { destruct Hlax as [Hlax| ->]; [|done]. rewrite Hlax.
    destruct manifest; [|done]. by destruct (verifySHA256ManifestEntry _ _ _ _). }
  destruct (match manifest with None => _ | Some _ => _ end) as [verr w3].
  simpl in Hverified. subst verr.
  destruct entries as [entries|]; [|apply IH].
  destruct (buildChecksumEntry _ _ _); apply IH.
Qed.

(** C8. In a batch download,
    - when the directory of a brand cannot be created, the batch ends there
      with that error of the [os] package, the failure reported, the
      remaining brands untouched;
    - when fetching one asset meets a transport error or a status other
      than 200, the failure is reported on the diagnostic stream, the asset
      is skipped, and the loop goes on with the next asset;
    - without strict manifest verification a batch returns an error only
      where a directory could not be created. *)
Theorem C8_download_failure_asymmetry (flags : Flags) (batchSize : nat)
    (manifest : option (gmap string string))
    (entries : option (list checksumEntry)) (w : World) :
  (∀ result rest e,
     MkdirAll (fs w) (targetDirOf flags batchSize result) = inl e →
     batchLoop flags batchSize (result :: rest) manifest entries w
     = (Some (ErrOS e), entries,
        printErr (LogMkdirFailed (targetDirOf flags batchSize result) e) w))
  ∧ (∀ targetDir url filename rest msg,
       NewRequest_error url = None →
       Do (mkRequest "GET" url browserHeaders) = DoError msg →
       downloadLoop flags targetDir manifest ((url, filename) :: rest) entries w
       = downloadLoop flags targetDir manifest rest entries
           (printErr (LogDownloadFailed filename (ErrExternal msg))
              (sent (AssetRequest url) w)))
  ∧ (∀ targetDir url filename rest code body bodyErr,
       NewRequest_error url = None →
       Do (mkRequest "GET" url browserHeaders) = Response code body bodyErr →
       code ≠ 200%Z →
       downloadLoop flags targetDir manifest ((url, filename) :: rest) entries w
       = downloadLoop flags targetDir manifest rest entries
           (printErr (LogDownloadFailed filename (ErrHTTPStatus code))
              (sent (AssetRequest url) w)))
  ∧ (∀ results err entries' w',
       quickSHA256ManifestVerify flags = false ∨ manifest = None →
       batchLoop flags batchSize results manifest entries w
       = (Some err, entries', w') →
       ∃ dir cause, err = ErrOS cause
                    ∧ last (stderr w') = Some (LogMkdirFailed dir cause)).
Proof.
  split; [|split; [|split]].
  - intros result rest e Hmk. simpl. unfold downloadAssetsToDir. by rewrite Hmk.
  - intros targetDir url filename rest msg Hreq Hdo. simpl.
    unfold downloadFile. by rewrite Hreq, Hdo.
  - intros targetDir url filename rest code body bodyErr Hreq Hdo Hcode. simpl.
    unfold downloadFile. rewrite Hreq, Hdo. by rewrite decide_True.
  - intros results err entries' w' Hlax. revert entries w.
    induction results as [|result rest IH]; intros entries w; [done|].
    simpl. unfold downloadAssetsToDir.
    destruct (MkdirAll (fs w) _) as [e|fs1] eqn:Hmk.
    + intros [= <- <- <-]. eexists _, _. split; [done|].
      simpl. by rewrite last_snoc.
    + pose proof (downloadLoop_not_fatal flags
                    (targetDirOf flags batchSize result) manifest
                    (assetSlots result) entries (setFS w fs1) Hlax) as Hloop.
      destruct (downloadLoop _ _ _ _ _ _) as [[r entries1] w1].
      simpl in Hloop. subst r. apply IH.
Qed.

End orchestrator.

(** *** A small world to run the command in *)

(** The last element of a slash-separated path. *)
Fixpoint lastElement (cur s : string) : string :=
  match s with
  | "" => cur
  | String c s' =>
      if decide (c = "/"%char) then lastElement "" s'
      else lastElement (cur +:+ String c "") s'
  end.

(** Stand-ins for the library functions, good for clean relative paths and
    lower-case ASCII; the digest is a tag on the content. *)
Definition exampleLib : GoLib := {|
  sha256_hex := λ content, "sha256(" +:+ content +:+ ")";
  EqualFold := λ a b, bool_decide (a = b);
  filepath_Base := lastElement "";
  filepath_Rel := λ root path, CutPrefix path (root +:+ "/");
  filepath_Join := λ dir elem, dir +:+ "/" +:+ elem;
  filepath_Ext := λ path, if HasPrefix (String.rev path) "gnp." then ".png" else "";
  url_Parse_Path := Some;
  ToLower := λ s, s;
  Join := λ elems sep, String.concat sep elems;
  NewRequest_error := λ _, None
|}.

(** One brand with two SVG logos and an icon; the CDN serves the logos and
    answers 404 for everything else. *)
Definition exampleEnv : Env := {|
  GetBrand := λ domain,
    if decide (domain = "stripe.com") then
      inr (Api.mkBrand "Stripe" "stripe.com"
             [Api.mkLogo "logo" "light" [Api.mkLogoFormat "cdn/light.svg" "svg"];
              Api.mkLogo "logo" "dark" [Api.mkLogoFormat "cdn/dark.svg" "svg"];
              Api.mkLogo "icon" "dark" [Api.mkLogoFormat "cdn/icon.png" "png"]]
             [Api.mkColor "#635BFF" "accent" 0] [])
    else inl "not found";
  Do := λ req,
    if decide (URL req = "cdn/light.svg") then Response 200 "<svg>light</svg>" None
    else if decide (URL req = "cdn/dark.svg") then Response 200 "<svg>dark</svg>" None
    else Response 404 "not found" None;
  FormatQuickBatch := λ results _ _, String.concat LF (Output.Name <$> results);
  NO_COLOR_set := false;
  isTerminal := false
|}.

Definition noFlags : Flags := mkFlags "" "" "" false false false "" "" false false.
Definition emptyWorld : World := mkWorld ∅ [] [] [].

(** C7, the claim as written fails: append without a manifest output path
    is refused only after the brand was fetched and the export printed. *)
Lemma C7_counterexample :
  let flags := mkFlags "" "" "" false false false "" "" true false in
  ∃ w', @runQuickCmd exampleLib exampleEnv flags ["stripe.com"] emptyWorld
        = (Some ErrAppendRequiresManifestOut, w')
        ∧ network w' = [BrandRequest "stripe.com"]
        ∧ stdout w' = ["Stripe" +:+ LF].
Proof. eexists. repeat split; vm_compute; reflexivity. Qed.

(** C7 at work: CSS together with JSON. *)
Lemma C7_witness :
  let flags := mkFlags "json" "" "assets" true false false "" "" false false in
  cssOutput flags = true ∧ outputFormat flags = "json"
  ∧ ∃ e, @runQuickCmd exampleLib exampleEnv flags ["stripe.com"] emptyWorld
         = (Some e, emptyWorld)
         ∧ (e = ErrCSSJSON ∨ e = ErrTailwindJSON ∨ e = ErrTailwindCSS).
Proof.
  intros flags. split; [reflexivity|]. split; [reflexivity|].
  apply (@C7_format_conflicts_fail_fast exampleLib exampleEnv flags).
  left. split; reflexivity.
Defined.

(** The scenario of the specification: three assets, the favicon answers
    404, the two logos arrive. Two files are on disk, one failure is on the
    diagnostic stream, and the command succeeds. *)
Example favicon_404_scenario :
  let flags := mkFlags "" "" "assets" false false false "" "" false false in
  ∃ w', @runQuickCmd exampleLib exampleEnv flags ["stripe.com"] emptyWorld
        = (None, w')
        ∧ stderr w' = [LogDownloaded "assets/logo-light.svg";
                       LogDownloaded "assets/logo-dark.svg";
                       LogDownloadFailed "favicon.png" (ErrHTTPStatus 404)]
        ∧ ReadFile (fs w') "assets/logo-light.svg" = inr "<svg>light</svg>"
        ∧ ReadFile (fs w') "assets/logo-dark.svg" = inr "<svg>dark</svg>"
        ∧ ReadFile (fs w') "assets/favicon.png" = inl ENOENT
        ∧ network w' = [BrandRequest "stripe.com"; AssetRequest "cdn/light.svg";
                        AssetRequest "cdn/dark.svg"; AssetRequest "cdn/icon.png"].
Proof. eexists. repeat split; vm_compute; reflexivity. Qed.

(** A directory that cannot be created ends the batch: a regular file
    stands where the download root should be. *)
Example mkdir_failure_scenario :
  let flags := mkFlags "" "" "assets" false false false "" "" false false in
  let w := mkWorld {[ "assets" := File (mkFile true true "") ]} [] [] [] in
  ∃ w', @runQuickCmd exampleLib exampleEnv flags ["stripe.com"] w
        = (Some (ErrOS ENOTDIR), w')
        ∧ stderr w' = [LogMkdirFailed "assets" ENOTDIR]
        ∧ network w' = [BrandRequest "stripe.com"].
Proof. eexists. repeat split; vm_compute; reflexivity. Qed.

(** C8 at work in that world: the directory cannot be created, the batch
    of one brand ends with the error. *)
Lemma C8_witness :
  let flags := mkFlags "" "" "assets" false false false "" "" false false in
  let w := mkWorld {[ "assets" := File (mkFile true true "") ]} [] [] [] in
  let brand := mkQuickResult "Stripe" "stripe.com" "cdn/light.svg" "" "" [] [] in
  @MkdirAll (fs w) (@targetDirOf exampleLib flags 1 brand) = inl ENOTDIR
  ∧ @batchLoop exampleLib exampleEnv flags 1 [brand] None (Some []) w
    = (Some (ErrOS ENOTDIR), Some [],
       printErr (LogMkdirFailed (@targetDirOf exampleLib flags 1 brand) ENOTDIR) w).
Proof.
  intros flags w brand. split; [vm_compute; reflexivity|].
  apply (@C8_download_failure_asymmetry exampleLib exampleEnv flags 1 None
           (Some []) w).
  vm_compute. reflexivity.
Defined.

End QuickSpec.

(** ** More about the allocators and the emitters *)

Module OutputMore.
Import GoStrings GoStringsFacts Output OutputSpec.

(** The fonts that are emitted: those whose key was not seen before. *)
Fixpoint firstFonts (seen : gset string) (fonts : list FontInfo) : list FontInfo :=
  match fonts with
  | [] => []
  | f :: rest =>
      if decide (fontKey f ∈ seen) then firstFonts seen rest
      else f :: firstFonts ({[fontKey f]} ∪ seen) rest
  end.

(** The value of a font variable. *)
Definition fontValue (f : FontInfo) : string :=
  "'" +:+ f_Name f +:+ "', sans-serif".

Lemma fontLoop_values base tc ti seen fonts :
  value <$> fontLoop base tc ti seen fonts = fontValue <$> firstFonts seen fonts.
Proof.
  revert ti seen. induction fonts as [|f rest IH]; intros ti seen; [done|].
  simpl. destruct (decide (fontKey f ∈ seen)); [apply IH|].
  destruct (decide _); simpl; by rewrite IH.
Qed.

Lemma tailwindFontLoop_length indent tc ti seen fonts :
  length (tailwindFontLoop indent tc ti seen fonts)
  = length (firstFonts seen fonts).
Proof.
  revert ti seen. induction fonts as [|f rest IH]; intros ti seen; [done|].
  simpl. destruct (decide (fontKey f ∈ seen)); [apply IH|].
  destruct (decide _); simpl; by rewrite IH.
Qed.

Lemma firstFonts_seen_more seen fonts k :
  k ∈ seen ∨ k ∈ fontKey <$> fonts →
  ∀ f rest, fontKey f = k →
  firstFonts seen (fonts ++ f :: rest) = firstFonts seen (fonts ++ rest).
Proof.
  revert seen. induction fonts as [|g fonts IH]; intros seen Hk f rest Hf; simpl.
  - destruct Hk as [Hk|Hk]; [|by apply elem_of_nil in Hk].
    by rewrite decide_True by (by rewrite Hf).
  - destruct (decide (fontKey g ∈ seen)).
    + apply IH; [|done]. destruct Hk as [Hk|Hk]; [by left|].
      rewrite fmap_cons in Hk. apply elem_of_cons in Hk as [->|Hk]; auto.
    + f_equal. apply IH; [|done]. destruct Hk as [Hk|Hk]; [left; set_solver|].
      rewrite fmap_cons in Hk. apply elem_of_cons in Hk as [->|Hk];
        [left; set_solver|by right].
Qed.

(** X1. A font whose name and type repeat those of an earlier font of the
    list adds no variable and changes no value, wherever it stands after
    that font: the flat allocators emit the same values in the same order,
    and the module format has as many entries. *)
Theorem duplicate_font_adds_no_variable (before after : list FontInfo)
    (f : FontInfo) (brand : string) :
  f ∈ before →
  value <$> buildFontVariables (before ++ f :: after)
  = value <$> buildFontVariables (before ++ after)
  ∧ value <$> buildFontVariablesWithPrefix (before ++ f :: after) brand
    = value <$> buildFontVariablesWithPrefix (before ++ after) brand
  ∧ length (buildTailwindFonts (before ++ f :: after))
    = length (buildTailwindFonts (before ++ after))
  ∧ length (buildTailwindFontsNested (before ++ f :: after))
    = length (buildTailwindFontsNested (before ++ after)).
Proof.
  intros Hin.
  assert (firstFonts ∅ (before ++ f :: after) = firstFonts ∅ (before ++ after))
    as Hfirst.
  { apply (firstFonts_seen_more _ _ (fontKey f)); [|done].
    right. by apply list_elem_of_fmap_2. }
  unfold buildFontVariables, buildFontVariablesWithPrefix, buildTailwindFonts,
    buildTailwindFontsNested.
  by rewrite !fontLoop_values, !tailwindFontLoop_length, Hfirst.
Qed.

Lemma duplicate_font_adds_no_variable_witness :
  let inter := mkFontInfo "Inter" "body" in
  let roboto := mkFontInfo "Roboto" "title" in
  inter ∈ [inter; roboto]
  ∧ value <$> buildFontVariables ([inter; roboto] ++ inter :: [])
    = value <$> buildFontVariables ([inter; roboto] ++ []).
Proof.
  intros inter roboto.
  assert (inter ∈ [inter; roboto]) as Hin by (by left).
  split; [exact Hin|].
  apply (duplicate_font_adds_no_variable [inter; roboto] [] inter "" Hin).
Defined.





(** X3. The de-duplication key joins name and type with a bar, so two
    different fonts whose bars fall differently share a key: the second is
    dropped as if it were a duplicate. *)
Theorem font_key_collision_drops_font (n x t : string) :
  let f1 := mkFontInfo (n +:+ "|" +:+ x) t in
  let f2 := mkFontInfo n (x +:+ "|" +:+ t) in
  fontKey f1 = fontKey f2
  ∧ value <$> buildFontVariables [f1; f2] = [fontValue f1]
  ∧ length (buildTailwindFonts [f1; f2]) = 1.
Proof.
  intros f1 f2.
  assert (fontKey f1 = fontKey f2) as Hkey.
  { unfold fontKey, f1, f2. simpl. by rewrite !append_assoc. }
  split; [done|].
  unfold buildFontVariables, buildTailwindFonts.
  rewrite fontLoop_values, tailwindFontLoop_length. simpl.
  rewrite decide_False by set_solver.
  rewrite decide_True by (rewrite Hkey; set_solver). done.
Qed.

(** X4. The names given to the colours of one semantic type are pairwise
    distinct. *)
Theorem names_within_type_distinct (colors : list ColorInfo) (T : string) :
  NoDup (name <$> ofType c_Type T colors (buildColorVariables colors)).
Proof.
  unfold buildColorVariables.
  rewrite (colorLoop_allocates "--color-" "--color") by done.
  unfold VariableName. destruct (decide (occ c_Type T colors = 1)) as [->|Hne].
  - simpl. apply NoDup_singleton.
  - apply NoDup_fmap_2_strong; [|apply NoDup_seq].
    intros i j _ _ Heq. simpl in Heq.
    do 4 apply String.app_inj in Heq. by apply (inj pretty) in Heq.
Qed.

(** The renaming that puts a brand token behind the two dashes. *)
Definition withBrand (brand : string) (v : cssVar) : cssVar :=
  mkCssVar ("--" +:+ brand +:+ "-" +:+ TrimPrefix (name v) "--") (value v).

Lemma colorLoop_withBrand brand tc ti colors :
  colorLoop ("--" +:+ brand +:+ "-color-") tc ti colors
  = withBrand brand <$> colorLoop "--color-" tc ti colors.
Proof.
  revert ti. induction colors as [|c rest IH]; intros ti; [done|].
  simpl. destruct (decide _); rewrite fmap_cons, IH; f_equal;
    unfold withBrand; simpl; f_equal;
    change (TrimPrefix ("--color-" +:+ ?s) "--") with ("color-" +:+ s);
    by rewrite !append_assoc.
Qed.

Lemma fontLoop_withBrand brand tc ti seen fonts :
  fontLoop ("--" +:+ brand +:+ "-font-") tc ti seen fonts
  = withBrand brand <$> fontLoop "--font-" tc ti seen fonts.
Proof.
  revert ti seen. induction fonts as [|f rest IH]; intros ti seen; [done|].
  simpl. destruct (decide (fontKey f ∈ seen)); [apply IH|].
  destruct (decide _); rewrite fmap_cons, IH; f_equal;
    unfold withBrand; simpl; f_equal;
    change (TrimPrefix ("--font-" +:+ ?s) "--") with ("font-" +:+ s);
    by rewrite !append_assoc.
Qed.

(** X5. Namespacing a brand changes nothing but the prefix: the variables of
    the brand-prefixed allocators are those of the plain allocators with
    the brand token and a dash put behind the leading two dashes; numbering
    and values are the same. *)
Theorem brand_prefix_only_renames (colors : list ColorInfo)
    (fonts : list FontInfo) (brand : string) :
  buildColorVariablesWithPrefix colors brand
  = withBrand brand <$> buildColorVariables colors
  ∧ buildFontVariablesWithPrefix fonts brand
    = withBrand brand <$> buildFontVariables fonts.
Proof.
  split; [apply colorLoop_withBrand|apply fontLoop_withBrand].
Qed.

(** The types of a list in order of first occurrence. *)
Definition firstOccurrences (types : list string) : list string :=
  reverse (remove_dups (reverse types)).

Lemma firstOccurrences_snoc types T :
  firstOccurrences (types ++ [T])
  = if decide (T ∈ types) then firstOccurrences types
    else firstOccurrences types ++ [T].
Proof.
  unfold firstOccurrences. rewrite reverse_snoc. simpl.
  destruct (decide_rel elem_of T (reverse types)) as [Hin|Hin];
    rewrite elem_of_reverse in Hin.
  - by rewrite decide_True.
  - by rewrite decide_False, reverse_cons.
Qed.

Lemma elem_of_firstOccurrences types T :
  T ∈ firstOccurrences types ↔ T ∈ types.
Proof.
  unfold firstOccurrences.
  by rewrite elem_of_reverse, elem_of_remove_dups, elem_of_reverse.
Qed.

Lemma groupColors_spec colors :
  (∀ T, (groupColors colors).1 !!! T
        = c_Hex <$> filter (λ c, c_Type c = T) colors)
  ∧ (∀ T, is_Some ((groupColors colors).1 !! T) ↔ T ∈ c_Type <$> colors)
  ∧ (groupColors colors).2 = firstOccurrences (c_Type <$> colors).
Proof.
  unfold groupColors.
  induction colors as [|c colors (IHhex & IHdom & IHord)] using rev_ind.
  { split; [|split]; [done| |done]. intros T. simpl.
    rewrite lookup_empty. split; [by intros [? ?]|by intros ?%elem_of_nil]. }
  rewrite foldl_snoc.
  destruct (foldl _ _ colors) as [typeColors typeOrder]. simpl in *.
  split; [|split].
  - intros T. rewrite filter_app, fmap_app, filter_cons, filter_nil.
    destruct (decide (c_Type c = T)) as [<-|Hne].
    + by rewrite lookup_total_insert_eq, IHhex.
    + rewrite lookup_total_insert_ne by done.
      simpl. by rewrite IHhex, (right_id_L [] (++)).
  - intros T. rewrite fmap_app, elem_of_app. simpl.
    rewrite list_elem_of_singleton, <- IHdom.
    destruct (decide (c_Type c = T)) as [<-|Hne].
    + rewrite lookup_insert_eq. split; [by right|eauto].
    + rewrite lookup_insert_ne by done. split; [by left|]. by intros [?|?].
  - rewrite fmap_app. simpl. rewrite firstOccurrences_snoc, IHord.
    destruct (decide (is_Some (typeColors !! c_Type c))) as [Hs|Hs];
      rewrite IHdom in Hs.
    + by rewrite decide_True.
    + by rewrite decide_False.
Qed.

(** X6. The module format groups the colours by type: it emits one entry
    per semantic type, the types in the order in which they first occur,
    and the entry of a type is made of the hex values of that type in
    arrival order. *)
Theorem tailwind_colors_grouped_by_type (colors : list ColorInfo) :
  length (buildTailwindColors colors)
  = length (firstOccurrences (c_Type <$> colors))
  ∧ length (buildTailwindColorsNested colors)
    = length (firstOccurrences (c_Type <$> colors))
  ∧ (groupColors colors).2 = firstOccurrences (c_Type <$> colors)
  ∧ NoDup (groupColors colors).2
  ∧ (∀ T, T ∈ (groupColors colors).2 ↔ T ∈ c_Type <$> colors)
  ∧ (∀ T, (groupColors colors).1 !!! T
          = c_Hex <$> filter (λ c, c_Type c = T) colors).
Proof.
  destruct (groupColors_spec colors) as (Hhex & Hdom & Hord).
  unfold buildTailwindColors, buildTailwindColorsNested, tailwindColorEntries.
  destruct (groupColors colors) as [typeColors typeOrder]. simpl in *.
  rewrite !length_fmap, Hord. split_and!; try done.
  - unfold firstOccurrences. rewrite reverse_Permutation. apply NoDup_remove_dups.
  - intros T. apply elem_of_firstOccurrences.
Qed.

(** The byte [c] occurs in [s]. *)
Fixpoint contains (c : ascii) (s : string) : bool :=
  match s with
  | "" => false
  | String d s' => bool_decide (c = d) || contains c s'
  end.

Lemma contains_app c a b : contains c (a +:+ b) = contains c a || contains c b.
Proof.
  induction a as [|d a IH]; [done|].
  rewrite append_cons. simpl. by rewrite IH, orb_assoc.
Qed.

Lemma contains_rev c s : contains c (String.rev s) = contains c s.
Proof.
  induction s as [|d s IH]; [done|].
  rewrite rev_cons, contains_app, IH. simpl. by rewrite orb_false_r, orb_comm.
Qed.

Lemma contains_ReplaceByte_same c s new :
  contains c new = false → contains c (ReplaceByte s c new) = false.
Proof.
  intros Hnew. induction s as [|d s IH]; [done|].
  simpl. rewrite contains_app, IH, orb_false_r.
  destruct (decide (d = c)); [done|]. simpl.
  rewrite orb_false_r. apply bool_decide_eq_false. congruence.
Qed.

Lemma contains_ReplaceByte_other c s old new :
  contains c s = false → contains c new = false →
  contains c (ReplaceByte s old new) = false.
Proof.
  intros Hs Hnew. induction s as [|d s IH]; [done|].
  simpl in Hs. apply orb_false_iff in Hs as [Hd Hs].
  simpl. rewrite contains_app, IH, orb_false_r by done.
  destruct (decide (d = old)); [done|]. simpl. by rewrite Hd.
Qed.

(** X8. The sanitized tokens are free of the bytes they are meant to
    remove: no dot is left in the CSS prefix and in the directory name, no
    dot and no hyphen in the Tailwind key. *)
Theorem sanitized_names_have_no_dot (domain : string) :
  contains "." (sanitizeCSSName domain) = false
  ∧ contains "." (Quick.sanitizeDirName domain) = false
  ∧ contains "." (sanitizeTailwindKey domain) = false
  ∧ contains "-" (sanitizeTailwindKey domain) = false.
Proof.
  unfold sanitizeCSSName, Quick.sanitizeDirName, sanitizeTailwindKey.
  repeat split.
  - by apply contains_ReplaceByte_same.
  - by apply contains_ReplaceByte_same.
  - apply contains_ReplaceByte_other; [|done]. by apply contains_ReplaceByte_same.
  - by apply contains_ReplaceByte_same.
Qed.

Lemma CutPrefix_Some s p r : CutPrefix s p = Some r → s = p +:+ r.
Proof.
  revert s. induction p as [|a p IH]; intros [|b s]; simpl; try done.
  - by intros [= <-].
  - by intros [= <-].
  - destruct (decide (a = b)) as [->|]; [|done].
    intros Hr%IH. by rewrite append_cons, Hr.
Qed.

Lemma TrimSuffix_absent c s p :
  contains c s = false → contains c p = true → TrimSuffix s p = s.
Proof.
  intros Hs Hp. unfold TrimSuffix.
  destruct (CutPrefix _ _) as [r|] eqn:Hcut; [|done].
  apply CutPrefix_Some in Hcut.
  apply (f_equal (contains c)) in Hcut.
  rewrite contains_app, !contains_rev, Hs, Hp in Hcut. done.
Qed.

Lemma ReplaceByte_absent c s new :
  contains c s = false → ReplaceByte s c new = s.
Proof.
  induction s as [|d s IH]; [done|]. simpl.
  intros [Hd Hs]%orb_false_iff. apply bool_decide_eq_false in Hd.
  rewrite decide_False by congruence. by rewrite IH.
Qed.

Lemma stripTLD_no_dot s : contains "." s = false → stripTLD s = s.
Proof.
  intros Hs. unfold stripTLD.
  by rewrite !(TrimSuffix_absent "." s) by done.
Qed.

(** X9. Sanitizing is idempotent: a token that was sanitized is left as it
    is by the same sanitizer. *)
Theorem sanitizers_idempotent (domain : string) :
  sanitizeCSSName (sanitizeCSSName domain) = sanitizeCSSName domain
  ∧ Quick.sanitizeDirName (Quick.sanitizeDirName domain)
    = Quick.sanitizeDirName domain
  ∧ sanitizeTailwindKey (sanitizeTailwindKey domain) = sanitizeTailwindKey domain.
Proof.
  assert (∀ s, contains "." (ReplaceByte s "." "-") = false) as Hcss.
  { intros s. by apply contains_ReplaceByte_same. }
  assert (∀ s, contains "-" (ReplaceByte s "-" "_") = false) as Hhyphen.
  { intros s. by apply contains_ReplaceByte_same. }
  assert (∀ s, contains "." (ReplaceByte (ReplaceByte s "." "_") "-" "_") = false)
    as Hdot.
  { intros s. apply contains_ReplaceByte_other; [|done].
    by apply contains_ReplaceByte_same. }
  repeat split.
  - unfold sanitizeCSSName at 1.
    rewrite stripTLD_no_dot by apply Hcss.
    by rewrite ReplaceByte_absent by apply Hcss.
  - unfold Quick.sanitizeDirName at 1.
    rewrite stripTLD_no_dot by apply Hcss.
    by rewrite ReplaceByte_absent by apply Hcss.
  - unfold sanitizeTailwindKey at 1.
    rewrite stripTLD_no_dot by apply Hdot.
    rewrite (ReplaceByte_absent ".") by apply Hdot.
    by rewrite ReplaceByte_absent by apply Hhyphen.
Qed.

(** The suffixes [stripTLD] takes off, in the order it tries them. *)
Definition strippedTLDs : list string := [".com"; ".io"; ".org"; ".net"; ".co"].

(** Two strings that differ at a position both have. *)
Fixpoint clash (p q : string) : bool :=
  match p, q with
  | String a p', String b q' => if decide (a = b) then clash p' q' else true
  | _, _ => false
  end.

Lemma CutPrefix_app p r : CutPrefix (p +:+ r) p = Some r.
Proof.
  induction p as [|a p IH]; [by destruct r|].
  rewrite append_cons. simpl. by rewrite decide_True.
Qed.

Lemma CutPrefix_clash p q x : clash p q = true → CutPrefix (q +:+ x) p = None.
Proof.
  revert q. induction p as [|a p IH]; intros [|b q]; try done.
  rewrite append_cons. simpl.
  destruct (decide (a = b)); [apply IH|done].
Qed.

Lemma TrimSuffix_app name p : TrimSuffix (name +:+ p) p = name.
Proof.
  unfold TrimSuffix.
  by rewrite rev_app_distr, CutPrefix_app, rev_involutive.
Qed.

Lemma TrimSuffix_clash name p q :
  clash (String.rev p) (String.rev q) = true →
  TrimSuffix (name +:+ q) p = name +:+ q.
Proof.
  intros Hclash. unfold TrimSuffix.
  by rewrite rev_app_distr, CutPrefix_clash.
Qed.

Lemma stripTLD_suffix name tld :
  contains "." name = false → tld ∈ strippedTLDs →
  stripTLD (name +:+ tld) = name.
Proof.
  intros Hname Htld. unfold strippedTLDs in Htld.
  rewrite !elem_of_cons, elem_of_nil in Htld. unfold stripTLD.
  destruct Htld as [->|[->|[->|[->|[->|[]]]]]];
    repeat first
      [ rewrite TrimSuffix_app
      | rewrite (TrimSuffix_absent "." name) by done
      | rewrite TrimSuffix_clash by reflexivity ];
    reflexivity.
Qed.

End OutputMore.

(** ** More about the manifest *)

Module ChecksumMore.
Import GoStrings GoStringsFacts Errors Sys Checksum ChecksumSpec.

(** The map [parseSHA256Manifest] builds from the bytes of a file. *)
Definition parseText (data : string) : gmap string string :=
  foldl parseLine ∅ (SplitLines data).

Lemma parse_of_text fs path data :
  ReadFile fs path = inr data → parseSHA256Manifest fs path = Ok (parseText data).
Proof. intros Hread. unfold parseSHA256Manifest. by rewrite Hread. Qed.

Lemma SplitLines_app a b :
  SplitLines (a +:+ LF +:+ b) = SplitLines a ++ SplitLines b.
Proof.
  induction a as [|c a IH].
  - rewrite append_nil_l. unfold LF. by rewrite append_cons, append_nil_l.
  - rewrite append_cons. simpl. destruct (decide _); [by rewrite IH|].
    rewrite IH. destruct (SplitLines a) eqn:Ha; [|done].
    by apply SplitLines_nonempty in Ha.
Qed.

Lemma parseLine_union (m m0 : gmap string string) line :
  parseLine (m ∪ m0) line = parseLine m line ∪ m0.
Proof.
  unfold parseLine. destruct (decide _); [done|].
  destruct (HasPrefix _ _); [done|].
  destruct (Fields _) as [|hash [|filename rest]]; [done..|].
  destruct (decide _); [|done]. by rewrite insert_union_l.
Qed.

Lemma foldl_parseLine_union (m m0 : gmap string string) lines :
  foldl parseLine (m ∪ m0) lines = foldl parseLine m lines ∪ m0.
Proof.
  revert m. induction lines as [|line lines IH]; intros m; [done|].
  simpl. by rewrite parseLine_union, IH.
Qed.

(** X10. Reading a manifest made of two manifests, the second after the
    first on a new line, gives the entries of both, those of the second
    winning where a path occurs in both. *)
Theorem concatenated_manifests_merge (fs : FS) (pa pb pab a b : string) :
  ReadFile fs pa = inr a →
  ReadFile fs pb = inr b →
  ReadFile fs pab = inr (a +:+ LF +:+ b) →
  ∃ ma mb, parseSHA256Manifest fs pa = Ok ma
           ∧ parseSHA256Manifest fs pb = Ok mb
           ∧ parseSHA256Manifest fs pab = Ok (mb ∪ ma).
Proof.
  intros Ha Hb Hab. exists (parseText a), (parseText b).
  rewrite (parse_of_text _ _ _ Ha), (parse_of_text _ _ _ Hb),
    (parse_of_text _ _ _ Hab).
  split_and!; try done. f_equal. unfold parseText.
  rewrite SplitLines_app, foldl_app.
  rewrite <- (left_id_L ∅ (∪) (foldl parseLine ∅ (SplitLines a))) at 1.
  by rewrite foldl_parseLine_union.
Qed.

Lemma concatenated_manifests_merge_witness :
  let a := "11  a.svg" +:+ LF +:+ "22  b.svg" in
  let b := "99  a.svg" in
  let fs : FS := {[ "one" := File (mkFile true true a);
                    "two" := File (mkFile true true b);
                    "both" := File (mkFile true true (a +:+ LF +:+ b)) ]} in
  ∃ ma mb, parseSHA256Manifest fs "one" = Ok ma
           ∧ parseSHA256Manifest fs "two" = Ok mb
           ∧ parseSHA256Manifest fs "both" = Ok (mb ∪ ma).
Proof.
  intros a b fs.
  apply (concatenated_manifests_merge fs "one" "two" "both" a b);
    vm_compute; reflexivity.
Defined.

(** *** Writing twice *)

Lemma mergeEntry_union (m m0 : gmap string string) entry :
  mergeEntry (m ∪ m0) entry = mergeEntry m entry ∪ m0.
Proof.
  unfold mergeEntry. destruct (decide _); [done|]. by rewrite insert_union_l.
Qed.

Lemma foldl_mergeEntry_union (m m0 : gmap string string) entries :
  foldl mergeEntry (m ∪ m0) entries = foldl mergeEntry m entries ∪ m0.
Proof.
  revert m. induction entries as [|e entries IH]; intros m; [done|].
  simpl. by rewrite mergeEntry_union, IH.
Qed.

(** What [WriteFile] leaves behind. *)
Lemma WriteFile_inv fs path text fs' :
  WriteFile fs path text = inr fs' →
  ∃ r, fs' = <[path := File (mkFile r true text)]> fs
       ∧ (fs !! path = None ∧ r = true
          ∨ ∃ f, fs !! path = Some (File f) ∧ r = readable f).
Proof.
  unfold WriteFile. destruct (fs !! path) as [[f|]|]; [|done|].
  - destruct (writable f); [|done]. intros [= <-].
    exists (readable f). split; [done|]. right. by exists f.
  - intros [= <-]. exists true. split; [done|]. by left.
Qed.

(** A map of well-formed entries is read back from the file it was
    rendered into. *)
Lemma write_then_parse fs path (merged : gmap string string) fs' :
  (∀ k v, merged !! k = Some v → roundTrips k v = true) →
  (∀ f, fs !! path = Some (File f) → readable f = true) →
  WriteFile fs path (manifestText merged) = inr fs' →
  parseSHA256Manifest fs' path = Ok merged.
Proof.
  intros Hwf Hread (r & -> & Hr)%WriteFile_inv.
  unfold parseSHA256Manifest, ReadFile. rewrite lookup_insert_eq. simpl.
  assert (r = true) as ->.
  { destruct Hr as [[_ ->]|(f & Hf & ->)]; [done|by apply Hread]. }
  by rewrite parse_manifestText.
Qed.

(** The map of an entry list. *)
Definition entryMap (entries : list checksumEntry) : gmap string string :=
  list_to_map ((λ e, (Path e, Sum e)) <$> entries).

Lemma entries_map_wf entries k v :
  Forall (λ e, roundTrips (Path e) (Sum e) = true) entries →
  entryMap entries !! k = Some v →
  roundTrips k v = true.
Proof.
  intros Hwf Hk. unfold entryMap in Hk.
  apply elem_of_list_to_map_2, list_elem_of_fmap in Hk as (e & [= -> ->] & He).
  rewrite Forall_forall in Hwf. by apply Hwf.
Qed.

Lemma entries_valid entries :
  Forall (λ e, roundTrips (Path e) (Sum e) = true) entries →
  Forall (λ e, Path e ≠ "" ∧ Sum e ≠ "") entries.
Proof.
  intros Hwf. eapply Forall_impl; [done|].
  intros e He%roundTrips_spec. tauto.
Qed.

(** Two writes in a row: a fresh manifest of [first], then [second]
    appended. *)
Lemma write_then_append fs fs1 path first second :
  NoDup (Path <$> first) →
  Forall (λ e, roundTrips (Path e) (Sum e) = true) first →
  NoDup (Path <$> second) →
  Forall (λ e, roundTrips (Path e) (Sum e) = true) second →
  (∀ f, fs !! path = Some (File f) → readable f = true) →
  writeSHA256Manifest fs path first false = Ok fs1 →
  (∃ r, fs1 = <[path := File (mkFile r true (manifestText (entryMap first)))]> fs)
  ∧ (∀ f, fs1 !! path = Some (File f) → readable f = true)
  ∧ (∀ k v, (entryMap second ∪ entryMap first) !! k = Some v →
            roundTrips k v = true)
  ∧ (second ≠ [] →
     writeSHA256Manifest fs1 path second true
     = written fs1 path (manifestText (entryMap second ∪ entryMap first))).
Proof.
  intros Hnd1 Hwf1 Hnd2 Hwf2 Hread. unfold writeSHA256Manifest at 1.
  destruct (decide _); [done|].
  rewrite merged_list_to_map by auto using entries_valid.
  fold (entryMap first).
  destruct (WriteFile _ _ _) as [|fs1'] eqn:Hw1; [done|]. intros [= ->].
  pose proof (write_then_parse _ _ _ _ (λ k v, entries_map_wf first k v Hwf1)
                Hread Hw1) as Hparse.
  apply WriteFile_inv in Hw1 as (r & -> & Hr). split_and!.
  - eauto.
  - intros f. rewrite lookup_insert_eq. intros [= <-]. simpl.
    destruct Hr as [[_ ->]|(f & Hf & ->)]; [done|by apply Hread].
  - intros k v [Hk|[_ Hk]]%lookup_union_Some_raw;
      eauto using entries_map_wf.
  - intros Hne.
    assert (foldl mergeEntry (entryMap first) second
            = entryMap second ∪ entryMap first) as Hmerged.
    { rewrite <- (left_id_L ∅ (∪) (entryMap first)) at 1.
      rewrite foldl_mergeEntry_union.
      by rewrite merged_list_to_map by auto using entries_valid. }
    unfold writeSHA256Manifest.
    rewrite decide_False by (by destruct second).
    rewrite Hparse. cbv beta iota. by rewrite Hmerged.
Qed.

(** X11. A manifest written from one entry list and then appended to from
    a second reads back as the union of the two, the second list winning
    on common paths (entries well-formed, paths distinct within each list,
    the file readable). *)
Theorem append_after_write_reads_as_union (fs fs1 fs2 : FS) (path : string)
    (first second : list checksumEntry) :
  NoDup (Path <$> first) →
  Forall (λ e, roundTrips (Path e) (Sum e) = true) first →
  NoDup (Path <$> second) →
  Forall (λ e, roundTrips (Path e) (Sum e) = true) second →
  (∀ f, fs !! path = Some (File f) → readable f = true) →
  writeSHA256Manifest fs path first false = Ok fs1 →
  writeSHA256Manifest fs1 path second true = Ok fs2 →
  parseSHA256Manifest fs2 path = Ok (entryMap second ∪ entryMap first).
Proof.
  intros Hnd1 Hwf1 Hnd2 Hwf2 Hread Hw1 Hw2.
  destruct (write_then_append fs fs1 path first second)
    as (_ & Hread1 & Hwf & Happend); try done.
  rewrite Happend in Hw2.
  - unfold written in Hw2.
    destruct (WriteFile _ _ _) as [|fs2'] eqn:Hwrite; [done|].
    injection Hw2 as ->. by apply (write_then_parse fs1).
  - intros ->. discriminate Hw2.
Qed.

Lemma append_after_write_reads_as_union_witness :
  let first := [mkEntry "a.svg" "11"; mkEntry "b.svg" "22"] in
  let second := [mkEntry "a.svg" "99"; mkEntry "c.svg" "33"] in
  ∃ fs1 fs2,
    writeSHA256Manifest ∅ "m" first false = Ok fs1
    ∧ writeSHA256Manifest fs1 "m" second true = Ok fs2
    ∧ parseSHA256Manifest fs2 "m" = Ok (entryMap second ∪ entryMap first).
Proof.
  intros first second.
  destruct (writeSHA256Manifest ∅ "m" first false) as [fs1|] eqn:Hw1;
    [|by vm_compute in Hw1].
  destruct (writeSHA256Manifest fs1 "m" second true) as [fs2|] eqn:Hw2.
  - exists fs1, fs2. split; [done|]. split; [done|].
    apply (append_after_write_reads_as_union ∅ fs1 fs2 "m" first second);
      try done.
    + apply (bool_decide_unpack _). vm_compute. reflexivity.
    + repeat constructor.
    + apply (bool_decide_unpack _). vm_compute. reflexivity.
    + repeat constructor.
  - exfalso. vm_compute in Hw1. injection Hw1 as <-. by vm_compute in Hw2.
Defined.



(** X14. Writing a manifest touches the manifest file only: every other
    path names after the write what it named before. *)
Theorem manifest_write_touches_one_file (fs fs' : FS) (path other : string)
    (entries : list checksumEntry) (appendExisting : bool) :
  writeSHA256Manifest fs path entries appendExisting = Ok fs' →
  other ≠ path →
  fs' !! other = fs !! other.
Proof.
  unfold writeSHA256Manifest. destruct (decide _); [done|].
  destruct (WriteFile _ _ _) as [|fs1] eqn:Hw; [done|]. intros [= <-] Hne.
  apply WriteFile_inv in Hw as (r & -> & _). by rewrite lookup_insert_ne.
Qed.

Lemma manifest_write_touches_one_file_witness :
  let fs : FS := {[ "logo.svg" := File (mkFile true false "<svg/>") ]} in
  ∃ fs', writeSHA256Manifest fs "m" [mkEntry "logo.svg" "11"] false = Ok fs'
         ∧ fs' !! "logo.svg" = fs !! "logo.svg".
Proof.
  intros fs.
  destruct (writeSHA256Manifest fs "m" [mkEntry "logo.svg" "11"] false)
    as [fs'|] eqn:Hw; [|by vm_compute in Hw].
  exists fs'. split; [done|].
  by apply (manifest_write_touches_one_file fs fs' "m" "logo.svg"
              [mkEntry "logo.svg" "11"] false).
Defined.

Section build_and_verify.
Context `{GoLib}.

(** X13. The path under which [buildChecksumEntry] records a file is the
    first key [verifySHA256ManifestEntry] looks for: a file verifies against
    every manifest that holds the entry built for it, provided the digest
    compares equal to itself. *)
Theorem built_entry_verifies (fs : FS) (path root : string)
    (entry : checksumEntry) (manifest : gmap string string) :
  buildChecksumEntry fs path root = Ok entry →
  manifest !! Path entry = Some (Sum entry) →
  EqualFold (Sum entry) (TrimSpace (Sum entry)) = true →
  verifySHA256ManifestEntry fs path root (Some manifest) = Ok ().
Proof.
  unfold buildChecksumEntry, verifySHA256ManifestEntry, verifySHA256, entryKeys.
  destruct (computeSHA256 fs path) as [sum|]; [|done].
  intros [= <-]. simpl. intros Hm Hfold.
  destruct (decide (root ≠ "")).
  - destruct (filepath_Rel root path) as [rel|].
    + destruct (decide (rel ≠ "" ∧ rel ≠ ".")); simpl in *;
        rewrite Hm; simpl; by rewrite Hfold.
    + simpl. rewrite Hm. simpl. by rewrite Hfold.
  - simpl. rewrite Hm. simpl. by rewrite Hfold.
Qed.

End build_and_verify.

Lemma built_entry_verifies_witness :
  let fs : FS := {[ "assets/logo.svg" := File (mkFile true true "<svg/>") ]} in
  ∃ entry,
    @buildChecksumEntry QuickSpec.exampleLib fs "assets/logo.svg" "assets"
    = Ok entry
    ∧ Path entry = "logo.svg"
    ∧ @verifySHA256ManifestEntry QuickSpec.exampleLib fs "assets/logo.svg"
        "assets" (Some {[ Path entry := Sum entry ]})
      = Ok ().
Proof.
  intros fs. eexists. split; [vm_compute; reflexivity|]. split; [reflexivity|].
  apply (@built_entry_verifies QuickSpec.exampleLib fs "assets/logo.svg" "assets"
           (mkEntry "logo.svg" "sha256(<svg/>)")).
  - vm_compute. reflexivity.
  - apply lookup_singleton_eq.
  - vm_compute. reflexivity.
Defined.

End ChecksumMore.

(** ** The logos a brand offers *)

Module FindLogos.
Import GoStrings Errors Sys Output Quick.

(** An SVG format of a logo of the given theme, and a format of an icon. *)
Definition svgLogo (theme : string) (logo : Api.Logo) (f : Api.LogoFormat)
    : Prop :=
  Api.Type_ logo = "logo" ∧ Api.Theme logo = theme ∧ Api.Format f = "svg".

Definition iconFormat (logo : Api.Logo) (f : Api.LogoFormat) : Prop :=
  Api.Type_ logo = "icon".

Global Instance svgLogo_dec theme logo f : Decision (svgLogo theme logo f).
Proof. unfold svgLogo. apply _. Defined.

Global Instance iconFormat_dec logo f : Decision (iconFormat logo f).
Proof. unfold iconFormat. apply _. Defined.

(** What one result says about the formats looked at so far, the pairs in
    [S]: if it is set it is the source of a format of its kind, and if
    there is a format of its kind with a source it is set. *)
Definition chosenAmong (S kind : Api.Logo → Api.LogoFormat → Prop)
    (src : string) : Prop :=
  (src ≠ "" → ∃ l f, S l f ∧ kind l f ∧ Api.Src f = src)
  ∧ (∀ l f, S l f → kind l f → Api.Src f ≠ "" → src ≠ "").

Definition foundAmong (S : Api.Logo → Api.LogoFormat → Prop)
    (found : string * string * string) : Prop :=
  chosenAmong S (svgLogo "light") found.1.1
  ∧ chosenAmong S (svgLogo "dark") found.1.2
  ∧ chosenAmong S iconFormat found.2.

(** The first format of its kind with a source wins. *)
Lemma chosenAmong_step (S S' kind : Api.Logo → Api.LogoFormat → Prop)
    logo f src `{!Decision (kind logo f)} :
  (∀ l g, S' l g ↔ S l g ∨ (l = logo ∧ g = f)) →
  chosenAmong S kind src →
  chosenAmong S' kind
    (if decide (kind logo f ∧ src = "") then Api.Src f else src).
Proof.
  intros HS [Hfrom Hset]. split.
  - destruct (decide _) as [[Hkind ->]|Hno].
    + intros _. exists logo, f. split; [apply HS; by right|done].
    + intros Hne. destruct (Hfrom Hne) as (l & g & Hin & ? & ?).
      exists l, g. split; [apply HS; by left|done].
  - intros l g [Hin|[-> ->]]%HS Hkind Hsrc.
    + destruct (decide _) as [[_ ->]|_]; [|by eauto].
      by destruct (Hset l g).
    + destruct (decide _) as [_|Hno]; [done|].
      intros ->. by apply Hno.
Qed.

Lemma findLogosFormat_components logo found f :
  findLogosFormat logo found f
  = (if decide (svgLogo "light" logo f ∧ found.1.1 = "") then Api.Src f
     else found.1.1,
     if decide (svgLogo "dark" logo f ∧ found.1.2 = "") then Api.Src f
     else found.1.2,
     if decide (iconFormat logo f ∧ found.2 = "") then Api.Src f else found.2).
Proof.
  destruct found as [[logoLight logoDark] favicon].
  unfold findLogosFormat, svgLogo, iconFormat. simpl.
  repeat case_decide; try done; exfalso; tauto.
Qed.

Lemma findLogosFormat_step (S S' : Api.Logo → Api.LogoFormat → Prop)
    logo f found :
  (∀ l g, S' l g ↔ S l g ∨ (l = logo ∧ g = f)) →
  foundAmong S found → foundAmong S' (findLogosFormat logo found f).
Proof.
  intros HS (Hl & Hd & Hf). rewrite findLogosFormat_components.
  split_and!; simpl; by apply (chosenAmong_step S).
Qed.

Lemma chosenAmong_ext (S S' kind : Api.Logo → Api.LogoFormat → Prop) src :
  (∀ l g, S l g ↔ S' l g) → chosenAmong S kind src → chosenAmong S' kind src.
Proof.
  intros HS [Hfrom Hset]. split.
  - intros Hne. destruct (Hfrom Hne) as (l & g & ?%HS & ? & ?). eauto.
  - intros l g ?%HS. eauto.
Qed.

Lemma foundAmong_ext (S S' : Api.Logo → Api.LogoFormat → Prop) found :
  (∀ l g, S l g ↔ S' l g) → foundAmong S found → foundAmong S' found.
Proof.
  intros HS (Hl & Hd & Hf). split_and!; by apply (chosenAmong_ext S).
Qed.

Lemma findLogos_formats (S : Api.Logo → Api.LogoFormat → Prop) logo formats
    found :
  foundAmong S found →
  foundAmong (λ l g, S l g ∨ (l = logo ∧ g ∈ formats))
    (foldl (findLogosFormat logo) found formats).
Proof.
  induction formats as [|f formats IH] using rev_ind; intros Hfound.
  - simpl. apply (foundAmong_ext S); [|done].
    intros l g. split; [by left|]. by intros [?|[_ ?%elem_of_nil]].
  - rewrite foldl_snoc.
    apply (findLogosFormat_step (λ l g, S l g ∨ (l = logo ∧ g ∈ formats)));
      [|by apply IH].
    intros l g. rewrite elem_of_app, list_elem_of_singleton. split.
    + intros [?|[-> [?| ->]]]; auto.
    + intros [[?|[-> ?]]|[-> ->]]; auto.
Qed.

(** X19. The logos [findLogos] chooses: a light or dark logo that is set is
    the source of an SVG format of a logo of type [logo] and of that theme,
    a favicon that is set is the source of a format of a logo of type
    [icon]; and where the brand has such a format with a source, the result
    is set. *)
Theorem findLogos_chooses_svg_logos (logos : list Api.Logo) :
  foundAmong (λ l f, l ∈ logos ∧ f ∈ Api.Formats l) (findLogos logos).
Proof.
  unfold findLogos. induction logos as [|logo logos IH] using rev_ind.
  - simpl. split_and!; (split; [done|]); by intros l f [?%elem_of_nil _].
  - rewrite foldl_snoc.
    apply (foundAmong_ext
             (λ l g, (l ∈ logos ∧ g ∈ Api.Formats l)
                     ∨ (l = logo ∧ g ∈ Api.Formats logo))).
    + intros l g. rewrite elem_of_app, list_elem_of_singleton. split.
      * intros [[? ?]|[-> ?]]; auto.
      * intros [[?| ->] ?]; auto.
    + by apply findLogos_formats.
Qed.

End FindLogos.

(** ** More about the downloads and the [quick] command *)

Module QuickMore.
Import GoStrings GoStringsFacts Errors Sys Output Checksum Quick ChecksumSpec.

Section downloads.
Context `{GoLib} `{Env}.

(** X16. [downloadFile] writes nothing to the two output streams and
    touches no file but its destination; it succeeds only for a body read
    to the end from a response with status 200, and then the destination
    holds that body; without a response of status 200 the files are as
    they were. *)
Theorem downloadFile_effects (url destPath : string) (w w' : World)
    (r : option error) :
  downloadFile url destPath w = (r, w') →
  stdout w' = stdout w ∧ stderr w' = stderr w
  ∧ (∀ p, p ≠ destPath → fs w' !! p = fs w !! p)
  ∧ (r = None →
     ∃ body f, Do (mkRequest "GET" url browserHeaders) = Response 200 body None
               ∧ fs w' !! destPath = Some (File f) ∧ data f = body)
  ∧ ((∀ body bodyErr,
        Do (mkRequest "GET" url browserHeaders) ≠ Response 200 body bodyErr) →
     fs w' = fs w).
Proof.
  unfold downloadFile.
  destruct (NewRequest_error url); [by intros [= <- <-]|].
  destruct (Do _) as [msg|code body bodyErr] eqn:Hdo; [by intros [= <- <-]|].
  destruct (decide (code ≠ 200%Z)) as [|Hcode]; [by intros [= <- <-]|].
  assert (code = 200%Z) as -> by (by destruct (decide (code = 200%Z))).
  simpl.
  destruct (WriteFile _ _ _) as [e|fs1] eqn:Hw; intros [= <- <-]; simpl.
  { by split_and!. }
  assert (∃ f, fs1 = <[destPath := File f]> (fs w) ∧ data f = body)
    as (f & -> & Hdata).
  { unfold WriteFile in Hw. simpl in Hw.
    destruct (fs w !! destPath) as [[f|]|]; [|done|].
    - destruct (writable f); [|done]. injection Hw as <-. by eexists.
    - injection Hw as <-. by eexists. }
  split_and!; try done.
  - intros p Hp. by rewrite lookup_insert_ne.
  - intros Hr. destruct bodyErr; [done|]. exists body, f.
    by rewrite lookup_insert_eq.
  - intros Hno. by destruct (Hno body bodyErr).
Qed.


Lemma writeSHA256File_streams path w :
  stdout (writeSHA256File path w).2 = stdout w
  ∧ stderr (writeSHA256File path w).2 = stderr w
  ∧ network (writeSHA256File path w).2 = network w.
Proof.
  unfold writeSHA256File. destruct (computeSHA256 _ _); [|done].
  by destruct (WriteFile _ _ _).
Qed.

(** What one round of the download loop does after a successful download,
    up to the recursive call: the sidecar file and the verification. *)
Lemma downloadLoop_preserves (P : World → Prop) flags targetDir manifest
    downloads entries w :
  (∀ w url dest, P w → P (downloadFile url dest w).2) →
  (∀ w path, P w → P (writeSHA256File path w).2) →
  (∀ w line, P w → P (printErr line w)) →
  P w →
  P (downloadLoop flags targetDir manifest downloads entries w).2.
Proof.
  intros Hdl Hsc Herr. revert entries w.
  induction downloads as [|[url filename] rest IH]; intros entries w Hw; [done|].
  simpl. pose proof (Hdl w url (filepath_Join targetDir filename) Hw) as Hw1.
  destruct (downloadFile _ _ w) as [[err|] w1]; simpl in Hw1; [by apply IH, Herr|].
  set (w2 := if quickSHA256 flags then _ else _).
  assert (P w2) as Hw2.
  { subst w2. destruct (quickSHA256 flags); [|by apply Herr].
    pose proof (Hsc _ (filepath_Join targetDir filename)
                  (Herr w1 (LogDownloaded (filepath_Join targetDir filename)) Hw1))
      as Hs.
    destruct (writeSHA256File _ _) as [[e|] ws]; simpl in Hs; [by apply Herr|done]. }
  clearbody w2.
  destruct manifest as [m|].
  - destruct (verifySHA256ManifestEntry _ _ _ _) as [|verr].
    + destruct entries as [es|]; [|by apply IH].
      destruct (buildChecksumEntry _ _ _); apply IH; auto.
    + destruct (quickSHA256ManifestVerify flags); [by apply Herr|].
      destruct entries as [es|]; [|by apply IH, Herr].
      destruct (buildChecksumEntry _ _ _); apply IH; auto.
  - destruct entries as [es|]; [|by apply IH].
    destruct (buildChecksumEntry _ _ _); apply IH; auto.
Qed.

Lemma batchLoop_preserves (P : World → Prop) flags batchSize results manifest
    entries w :
  (∀ w url dest, P w → P (downloadFile url dest w).2) →
  (∀ w path, P w → P (writeSHA256File path w).2) →
  (∀ w line, P w → P (printErr line w)) →
  (∀ w fs', P w → P (setFS w fs')) →
  P w →
  P (batchLoop flags batchSize results manifest entries w).2.
Proof.
  intros Hdl Hsc Herr Hfs. revert entries w.
  induction results as [|result rest IH]; intros entries w Hw; [done|].
  simpl. unfold downloadAssetsToDir.
  destruct (MkdirAll _ _) as [e|fs1]; [by apply Herr|].
  pose proof (downloadLoop_preserves P flags
                (targetDirOf flags batchSize result) manifest
                (assetSlots result) entries (setFS w fs1) Hdl Hsc Herr
                (Hfs w fs1 Hw)) as Hloop.
  destruct (downloadLoop _ _ _ _ _ _) as [[[err|] entries1] w1]; [done|].
  by apply IH.
Qed.

Lemma downloadFile_stdout url destPath w :
  stdout (downloadFile url destPath w).2 = stdout w.
Proof.
  unfold downloadFile. destruct (NewRequest_error url); [done|].
  destruct (Do _) as [msg|code body bodyErr]; [done|].
  destruct (decide _); [done|]. simpl. by destruct (WriteFile _ _ _).
Qed.

Lemma assetSlots_length result : (length (assetSlots result) ≤ 3)%nat.
Proof.
  unfold assetSlots. rewrite !length_app.
  repeat destruct (decide _); simpl; lia.
Qed.

Lemma downloadLoop_entries flags targetDir manifest downloads entries w :
  match entries with
  | None =>
      (downloadLoop flags targetDir manifest downloads entries w).1.2 = None
  | Some es =>
      ∃ new, (downloadLoop flags targetDir manifest downloads entries w).1.2
             = Some (es ++ new)
             ∧ (length new ≤ length downloads)%nat
  end.
Proof.
  revert entries w.
  induction downloads as [|[url filename] rest IH]; intros entries w.
  { destruct entries as [es|]; [|done]. exists []. by rewrite (right_id_L [] (++)). }
  assert (∀ w0, match entries with
                | None =>
                    (downloadLoop flags targetDir manifest rest entries w0).1.2
                    = None
                | Some es =>
                    ∃ new,
                      (downloadLoop flags targetDir manifest rest entries w0).1.2
                      = Some (es ++ new)
                      ∧ (length new ≤ length ((url, filename) :: rest))%nat
                end) as Hskip.
  { intros w0. specialize (IH entries w0). destruct entries as [es|]; [|done].
    destruct IH as (new & -> & Hlen). exists new. split; [done|]. simpl. lia. }
  assert (match entries with
          | None => entries = None
          | Some es => ∃ new, entries = Some (es ++ new)
                              ∧ (length new ≤ length ((url, filename) :: rest))%nat
          end) as Hstop.
  { destruct entries as [es|]; [|done]. exists [].
    rewrite (right_id_L [] (++)). split; [done|]. simpl. lia. }
  assert (∀ w0 entry,
            match entries with
            | None => True
            | Some es =>
                ∃ new,
                  (downloadLoop flags targetDir manifest rest
                     (Some (es ++ [entry])) w0).1.2
                  = Some (es ++ new)
                  ∧ (length new ≤ length ((url, filename) :: rest))%nat
            end) as Hadd.
  { intros w0 entry. destruct entries as [es|]; [|done].
    destruct (IH (Some (es ++ [entry])) w0) as (new & -> & Hlen).
    exists (entry :: new). rewrite <- (assoc_L (++)). split; [done|].
    simpl. lia. }
  simpl. destruct (downloadFile _ _ w) as [[err|] w1]; [apply Hskip|].
  set (w2 := if quickSHA256 flags then _ else _). clearbody w2.
  destruct manifest as [m|].
  - destruct (verifySHA256ManifestEntry _ _ _ _) as [|verr].
    + destruct entries as [es|]; [|apply Hskip].
      destruct (buildChecksumEntry _ _ _) as [entry|];
        [apply (Hadd w2 entry)|apply Hskip].
    + destruct (quickSHA256ManifestVerify flags); [exact Hstop|].
      destruct entries as [es|]; [|apply Hskip].
      destruct (buildChecksumEntry _ _ _) as [entry|];
        [apply (Hadd _ entry)|apply Hskip].
  - destruct entries as [es|]; [|apply Hskip].
    destruct (buildChecksumEntry _ _ _) as [entry|];
      [apply (Hadd w2 entry)|apply Hskip].
Qed.

(** X17. A batch download only adds to the list of checksum entries: what
    was recorded stays, in place, and at most three entries are added per
    brand. *)
Theorem batch_entries_only_grow (flags : Flags) (results : list QuickResult)
    (manifest : option (gmap string string)) (recorded : list checksumEntry)
    (w : World) :
  ∃ new, (downloadAssetsBatch flags results manifest (Some recorded) w).1.2
         = Some (recorded ++ new)
         ∧ (length new ≤ 3 * length results)%nat.
Proof.
  unfold downloadAssetsBatch. generalize (length results) at 1. intros batchSize.
  revert recorded w. induction results as [|result rest IH]; intros recorded w.
  { exists []. by rewrite (right_id_L [] (++)). }
  simpl. unfold downloadAssetsToDir.
  destruct (MkdirAll _ _) as [e|fs1].
  { exists []. rewrite (right_id_L [] (++)). split; [done|]. simpl. lia. }
  pose proof (downloadLoop_entries flags (targetDirOf flags batchSize result)
                manifest (assetSlots result) (Some recorded) (setFS w fs1))
    as (new & Hnew & Hlen).
  pose proof (assetSlots_length result) as Hslots.
  destruct (downloadLoop _ _ _ _ _ _) as [[[err|] entries1] w1];
    simpl in Hnew; subst entries1.
  - exists new. split; [done|]. simpl. lia.
  - destruct (IH (recorded ++ new) w1) as (more & -> & Hmore).
    exists (new ++ more). rewrite (assoc_L (++)). split; [done|].
    rewrite length_app. simpl. lia.
Qed.


Lemma batchLoop_stdout flags batchSize results manifest entries w :
  stdout (batchLoop flags batchSize results manifest entries w).2 = stdout w.
Proof.
  apply (batchLoop_preserves (λ w', stdout w' = stdout w)); try done.
  - intros w0 url dest Hw0. by rewrite downloadFile_stdout.
  - intros w0 path Hw0.
    by destruct (writeSHA256File_streams path w0) as (-> & _ & _).
Qed.

(** The text [runQuickCmd] prints for the brands it fetched. *)
Definition exportText (flags : Flags) (results : list QuickResult)
    (format : Format) (colorize : bool) : string :=
  if cssOutput flags then FormatQuickCSSBatch results
  else if tailwindOutput flags then FormatQuickTailwindBatch results
  else FormatQuickBatch results format colorize.

(** X22. Once a brand was fetched and the output options are valid, the
    export of the fetched brands is printed, as one line-terminated text
    and nothing else on the primary stream, whatever happens to the
    downloads and to the manifest afterwards, also when the run ends in an
    error. *)
Theorem export_printed_despite_download_failures (flags : Flags)
    (args : list string) (w w1 w' : World) (results : list QuickResult)
    (fetchErrors : list string) (format : Format) (colorize : bool)
    (r : option error) :
  cssOutput flags && bool_decide (outputFormat flags = "json") = false →
  tailwindOutput flags && bool_decide (outputFormat flags = "json") = false →
  tailwindOutput flags && cssOutput flags = false →
  foldl fetchBrand ([], [], w) args = (results, fetchErrors, w1) →
  results ≠ [] →
  resolveOutput flags = Ok (format, colorize) →
  runQuickCmd flags args w = (r, w') →
  stdout w' = stdout w ++ [exportText flags results format colorize +:+ LF].
Proof.
  intros H1 H2 H3 Hfetch Hres Hout. unfold runQuickCmd.
  rewrite H1, H2, H3, Hfetch, Hout.
  rewrite decide_False by (by destruct results).
  apply QuickSpec.fetch_loop_network in Hfetch as (_ & _ & Hstd).
  fold (exportText flags results format colorize).
  set (w2 := printOut _ w1).
  assert (stdout w2
          = stdout w ++ [exportText flags results format colorize +:+ LF])
    as Hw2 by (by subst w2; simpl; rewrite Hstd).
  clearbody w2.
  destruct (decide (downloadDir flags ≠ "")).
  - destruct (decide (quickSHA256Manifest flags ≠ "")).
    + destruct (parseSHA256Manifest _ _); [|by intros [= <- <-]].
      unfold downloadAssetsBatch.
      pose proof (batchLoop_stdout flags (length results) results (Some a)
                    (Some []) w2) as Hb.
      destruct (batchLoop _ _ _ _ _ _) as [[[e|] es] w3]; simpl in Hb.
      * intros [= <- <-]. by rewrite Hb.
      * destruct (decide _).
        -- destruct (writeSHA256Manifest _ _ _ _); intros [= <- <-];
             simpl; by rewrite Hb.
        -- intros [= <- <-]. by rewrite Hb.
    + unfold downloadAssetsBatch.
      pose proof (batchLoop_stdout flags (length results) results None
                    (Some []) w2) as Hb.
      destruct (batchLoop _ _ _ _ _ _) as [[[e|] es] w3]; simpl in Hb.
      * intros [= <- <-]. by rewrite Hb.
      * destruct (decide _).
        -- destruct (writeSHA256Manifest _ _ _ _); intros [= <- <-];
             simpl; by rewrite Hb.
        -- intros [= <- <-]. by rewrite Hb.
  - repeat destruct (decide _); try destruct (quickSHA256ManifestAppend flags);
      by intros [= <- <-].
Qed.

Lemma fetch_loop_all_fail args results fetchErrors w :
  (∀ domain, domain ∈ args → ∃ msg, GetBrand domain = inl msg) →
  ∃ fetchErrors' w',
    foldl fetchBrand (results, fetchErrors, w) args
    = (results, fetchErrors', w')
    ∧ stderr w'
      = stderr w
        ++ ((λ domain, LogFetchError domain
                         (match GetBrand domain with
                          | inl msg => msg
                          | inr _ => ""
                          end)) <$> args).
Proof.
  revert fetchErrors w. induction args as [|domain args IH];
    intros fetchErrors w Hfail.
  { exists fetchErrors, w. split; [done|]. simpl.
    by rewrite (right_id_L [] (++)). }
  simpl. destruct (Hfail domain (list_elem_of_here _ _)) as [msg Hmsg].
  rewrite Hmsg.
  destruct (IH (fetchErrors ++ [domain +:+ ": " +:+ msg])
              (printErr (LogFetchError domain msg) (sent (BrandRequest domain) w)))
    as (errs & w' & -> & Herr).
  { intros d Hd. apply Hfail. by right. }
  exists errs, w'. split; [done|]. rewrite Herr. simpl.
  by rewrite <- (assoc_L (++)).
Qed.

(** X20. When the brand of every argument fails to be fetched, the run
    ends with the error that sums the failures up; one line per argument
    went to the diagnostic stream, nothing was printed on the primary
    stream, and no file was touched. *)
Theorem all_fetches_failed (flags : Flags) (args : list string) (w : World) :
  cssOutput flags && bool_decide (outputFormat flags = "json") = false →
  tailwindOutput flags && bool_decide (outputFormat flags = "json") = false →
  tailwindOutput flags && cssOutput flags = false →
  (∀ domain, domain ∈ args → ∃ msg, GetBrand domain = inl msg) →
  ∃ summary w',
    runQuickCmd flags args w = (Some (ErrFetchAll summary), w')
    ∧ stdout w' = stdout w ∧ fs w' = fs w
    ∧ network w' = network w ++ (BrandRequest <$> args)
    ∧ stderr w'
      = stderr w
        ++ ((λ domain, LogFetchError domain
                         (match GetBrand domain with
                          | inl msg => msg
                          | inr _ => ""
                          end)) <$> args).
Proof.
  intros H1 H2 H3 Hfail. unfold runQuickCmd. rewrite H1, H2, H3.
  destruct (fetch_loop_all_fail args [] [] w Hfail) as (errs & w' & Hfetch & Herr).
  rewrite Hfetch. simpl.
  apply QuickSpec.fetch_loop_network in Hfetch as (Hnet & Hfs & Hstd).
  by exists (Join errs "; "), w'.
Qed.

(** X21. Without a download directory a run changes no file and sends no
    request for an asset. *)
Theorem no_download_dir_no_files (flags : Flags) (args : list string)
    (w w' : World) (r : option error) :
  downloadDir flags = "" →
  runQuickCmd flags args w = (r, w') →
  fs w' = fs w
  ∧ ∀ url, AssetRequest url ∈ network w' → AssetRequest url ∈ network w.
Proof.
  intros Hdir. unfold runQuickCmd.
  destruct (_ && _); [by intros [= <- <-]|].
  destruct (_ && _); [by intros [= <- <-]|].
  destruct (_ && _); [by intros [= <- <-]|].
  destruct (foldl fetchBrand ([], [], w) args) as [[results fetchErrors] w1]
    eqn:Hfetch.
  apply QuickSpec.fetch_loop_network in Hfetch as (Hnet & Hfs & _).
  assert (∀ url, AssetRequest url ∈ network w1 → AssetRequest url ∈ network w)
    as Hassets.
  { intros url. rewrite Hnet, elem_of_app, list_elem_of_fmap.
    intros [?|(d & ? & _)]; done. }
  destruct (decide (length results = 0)); [by intros [= <- <-]|].
  destruct (resolveOutput flags) as [[format colorize]|e]; [|by intros [= <- <-]].
  rewrite decide_False by (by rewrite Hdir; intros []).
  repeat destruct (decide _); try destruct (quickSHA256ManifestAppend flags);
    by intros [= <- <-].
Qed.

(** X15. The sidecar checksum file is a manifest of one entry: read as a
    manifest it maps the base name of the file to its digest (base name and
    digest being of the kind the reader and the writer agree on, and a
    sidecar file already there being readable). *)
Theorem sidecar_is_one_entry_manifest (path sum : string) (w w' : World) :
  computeSHA256 (fs w) path = Ok sum →
  roundTrips (filepath_Base path) sum = true →
  (∀ f, fs w !! (path +:+ ".sha256") = Some (File f) → readable f = true) →
  writeSHA256File path w = (None, w') →
  parseSHA256Manifest (fs w') (path +:+ ".sha256")
  = Ok {[ filepath_Base path := sum ]}.
Proof.
  intros Hsum Hwf Hread. unfold writeSHA256File. rewrite Hsum.
  destruct (WriteFile _ _ _) as [|fs1] eqn:Hw; [done|]. intros [= <-]. simpl.
  unfold WriteFile in Hw. unfold parseSHA256Manifest, ReadFile.
  assert (foldl parseLine ∅
            (SplitLines (sum +:+ "  " +:+ filepath_Base path +:+ LF))
          = {[ filepath_Base path := sum ]}) as Hparse.
  { rewrite <- (append_nil_r (sum +:+ "  " +:+ filepath_Base path +:+ LF)).
    rewrite line_then_rest.
    rewrite SplitLines_line by (by apply roundTrips_noLF). simpl.
    by rewrite parseLine_entry. }
  destruct (fs w !! (path +:+ ".sha256")) as [[f|]|] eqn:Hf; [|done|].
  - destruct (writable f); [|done]. injection Hw as <-.
    rewrite lookup_insert_eq. simpl. rewrite (Hread f) by done.
    by rewrite Hparse.
  - injection Hw as <-. rewrite lookup_insert_eq. simpl. by rewrite Hparse.
Qed.

(** X7. Two brands whose domains differ only in a top-level domain that
    is stripped (the rest holding no dot) get the same download directory
    in a batch, the same prefix for their CSS variables and the same key in
    the Tailwind configuration. *)
Theorem tld_variants_share_names (flags : Flags) (batchSize : nat)
    (a b : QuickResult) (name tld1 tld2 : string) :
  OutputMore.contains "." name = false →
  tld1 ∈ OutputMore.strippedTLDs → tld2 ∈ OutputMore.strippedTLDs →
  Output.Domain a = name +:+ tld1 → Output.Domain b = name +:+ tld2 →
  targetDirOf flags batchSize a = targetDirOf flags batchSize b
  ∧ sanitizeDirName (Output.Domain a) = name
  ∧ sanitizeCSSName (Output.Domain a) = sanitizeCSSName (Output.Domain b)
  ∧ sanitizeTailwindKey (Output.Domain a) = sanitizeTailwindKey (Output.Domain b).
Proof.
  intros Hname Htld1 Htld2 Ha Hb.
  unfold targetDirOf, sanitizeDirName, sanitizeCSSName, sanitizeTailwindKey.
  rewrite Ha, Hb, !OutputMore.stripTLD_suffix by done.
  split_and!; try done.
  by apply OutputMore.ReplaceByte_absent.
Qed.

End downloads.

(** *** The properties at work in the example world *)

(** X16 at work: the light logo is served, and lands in its file. *)
Lemma downloadFile_effects_witness :
  let run := @downloadFile QuickSpec.exampleLib QuickSpec.exampleEnv
               "cdn/light.svg" "light.svg" QuickSpec.emptyWorld in
  stdout run.2 = [] ∧ stderr run.2 = []
  ∧ (∀ p, p ≠ "light.svg" → fs run.2 !! p = None)
  ∧ (run.1 = None →
     ∃ body f,
       @Do QuickSpec.exampleEnv (mkRequest "GET" "cdn/light.svg" browserHeaders)
       = Response 200 body None
       ∧ fs run.2 !! "light.svg" = Some (File f) ∧ data f = body)
  ∧ ((∀ body bodyErr,
        @Do QuickSpec.exampleEnv (mkRequest "GET" "cdn/light.svg" browserHeaders)
        ≠ Response 200 body bodyErr) →
     fs run.2 = ∅).
Proof.
  intros run.
  apply (@downloadFile_effects QuickSpec.exampleLib QuickSpec.exampleEnv
           "cdn/light.svg" "light.svg" QuickSpec.emptyWorld run.2 run.1).
  apply surjective_pairing.
Defined.


(** X22 at work: the download directory cannot be created, the run fails,
    and the export was printed. *)
Lemma export_printed_despite_download_failures_witness :
  let flags := mkFlags "text" "" "assets" false false false "" "" false false in
  let w := mkWorld {[ "assets" := File (mkFile true true "") ]} [] [] [] in
  let fetched := foldl (@fetchBrand QuickSpec.exampleEnv) ([], [], w)
                   ["stripe.com"] in
  let run := @runQuickCmd QuickSpec.exampleLib QuickSpec.exampleEnv flags
               ["stripe.com"] w in
  run.1 = Some (ErrOS ENOTDIR)
  ∧ stdout run.2
    = [@exportText QuickSpec.exampleEnv flags fetched.1.1 FormatText false
       +:+ LF].
Proof.
  intros flags w fetched run. split; [vm_compute; reflexivity|].
  apply (@export_printed_despite_download_failures QuickSpec.exampleLib
           QuickSpec.exampleEnv flags ["stripe.com"] w fetched.2 run.2
           fetched.1.1 fetched.1.2 FormatText false run.1).
  - reflexivity.
  - reflexivity.
  - reflexivity.
  - vm_compute. reflexivity.
  - vm_compute. discriminate.
  - vm_compute. reflexivity.
  - apply surjective_pairing.
Defined.

(** X20 at work: two brands that are not found. *)
Lemma all_fetches_failed_witness :
  ∃ summary w',
    @runQuickCmd QuickSpec.exampleLib QuickSpec.exampleEnv QuickSpec.noFlags
      ["nope.com"; "nada.com"] QuickSpec.emptyWorld
    = (Some (ErrFetchAll summary), w')
    ∧ stdout w' = [] ∧ fs w' = ∅
    ∧ network w' = [BrandRequest "nope.com"; BrandRequest "nada.com"]
    ∧ stderr w' = [LogFetchError "nope.com" "not found";
                   LogFetchError "nada.com" "not found"].
Proof.
  apply (@all_fetches_failed QuickSpec.exampleLib QuickSpec.exampleEnv
           QuickSpec.noFlags ["nope.com"; "nada.com"] QuickSpec.emptyWorld).
  - reflexivity.
  - reflexivity.
  - reflexivity.
  - intros domain Hdomain. exists "not found".
    rewrite !elem_of_cons, elem_of_nil in Hdomain.
    destruct Hdomain as [->|[->|[]]]; reflexivity.
Defined.

(** X21 at work: a brand is fetched and printed, no file appears. *)
Lemma no_download_dir_no_files_witness :
  let run := @runQuickCmd QuickSpec.exampleLib QuickSpec.exampleEnv
               QuickSpec.noFlags ["stripe.com"] QuickSpec.emptyWorld in
  fs run.2 = ∅
  ∧ ∀ url, AssetRequest url ∈ network run.2 → AssetRequest url ∈ [].
Proof.
  intros run.
  apply (@no_download_dir_no_files QuickSpec.exampleLib QuickSpec.exampleEnv
           QuickSpec.noFlags ["stripe.com"] QuickSpec.emptyWorld run.2 run.1).
  - reflexivity.
  - apply surjective_pairing.
Defined.

(** X15 at work: the sidecar of a downloaded logo. *)
Lemma sidecar_is_one_entry_manifest_witness :
  let w := mkWorld {[ "out/logo.svg" := File (mkFile true true "<svg/>") ]}
             [] [] [] in
  parseSHA256Manifest
    (fs (@writeSHA256File QuickSpec.exampleLib "out/logo.svg" w).2)
    "out/logo.svg.sha256"
  = Ok {[ "logo.svg" := "sha256(<svg/>)" ]}.
Proof.
  intros w.
  apply (@sidecar_is_one_entry_manifest QuickSpec.exampleLib "out/logo.svg"
           "sha256(<svg/>)" w).
  - vm_compute. reflexivity.
  - vm_compute. reflexivity.
  - intros f Hf. vm_compute in Hf. discriminate.
  - vm_compute. reflexivity.
Defined.

(** X7 at work: stripe.com and stripe.io. *)
Lemma tld_variants_share_names_witness :
  let a := mkQuickResult "Stripe" "stripe.com" "" "" "" [] [] in
  let b := mkQuickResult "Stripe Press" "stripe.io" "" "" "" [] [] in
  @targetDirOf QuickSpec.exampleLib QuickSpec.noFlags 2 a
  = @targetDirOf QuickSpec.exampleLib QuickSpec.noFlags 2 b
  ∧ sanitizeDirName (Output.Domain a) = "stripe"
  ∧ sanitizeCSSName (Output.Domain a) = sanitizeCSSName (Output.Domain b)
  ∧ sanitizeTailwindKey (Output.Domain a) = sanitizeTailwindKey (Output.Domain b).
Proof.
  intros a b.
  apply (@tld_variants_share_names QuickSpec.exampleLib QuickSpec.noFlags 2
           a b "stripe" ".com" ".io").
  - reflexivity.
  - apply list_elem_of_here.
  - apply list_elem_of_further, list_elem_of_here.
  - reflexivity.
  - reflexivity.
Defined.

End QuickMore.

(** ** What [logo download] leaves behind *)

Module LogoDownloadSpec.
Import GoStrings GoStringsFacts Errors Sys Output Checksum Quick LogoDownload.

Section with_env.
Context `{GoLib} `{Env}.
Variable GetLogo : LogoOptions → string + string.
Variable filepath_Dir : string → string.
Variable PrintJSON : string → string → string + string.

(** A replacement by a hyphen that yields a string without hyphen replaced
    nothing. *)
Lemma ReplaceByte_hyphen_free s old t :
  ReplaceByte s old "-" = t → OutputMore.contains "-" t = false → s = t.
Proof.
  revert t. induction s as [|c s IH]; intros t; simpl; [done|].
  destruct (decide (c = old)).
  - rewrite append_cons, append_nil_l. by intros <-.
  - rewrite append_cons, append_nil_l. intros <-. simpl.
    intros [_ Hs]%orb_false_iff. f_equal. by apply IH.
Qed.

(** X24. The file name made from an identifier is never empty, never the
    dot or the double dot, and holds neither a space nor a colon. *)
Theorem sanitized_file_name_is_safe (value : string) :
  sanitizeFileName value ≠ ""
  ∧ sanitizeFileName value ≠ "."
  ∧ sanitizeFileName value ≠ ".."
  ∧ OutputMore.contains " " (sanitizeFileName value) = false
  ∧ OutputMore.contains ":" (sanitizeFileName value) = false.
Proof.
  unfold sanitizeFileName.
  destruct (decide _) as [|Hsafe]; [by split_and!|].
  set (safe := filepath_Base (TrimSpace value)) in *.
  assert (∀ t, OutputMore.contains "-" t = false →
            ReplaceByte (ReplaceByte safe " " "-") ":" "-" = t → safe = t)
    as Hsame.
  { intros t Ht Heq. apply ReplaceByte_hyphen_free in Heq; [|done]. subst t.
    by apply (ReplaceByte_hyphen_free safe " "). }
  split_and!.
  - intros Heq. apply Hsame in Heq; [|done]. tauto.
  - intros Heq. apply Hsame in Heq; [|done]. tauto.
  - intros Heq. apply Hsame in Heq; [|done]. tauto.
  - apply OutputMore.contains_ReplaceByte_other; [|done].
    by apply OutputMore.contains_ReplaceByte_same.
  - by apply OutputMore.contains_ReplaceByte_same.
Qed.

Lemma downloadFile_success url destPath w w' :
  downloadFile url destPath w = (None, w') →
  stdout w' = stdout w
  ∧ ∃ body f, Do (mkRequest "GET" url browserHeaders) = Response 200 body None
              ∧ fs w' !! destPath = Some (File f) ∧ data f = body.
Proof.
  unfold downloadFile.
  destruct (NewRequest_error url); [done|].
  destruct (Do _) as [msg|code body bodyErr] eqn:Hdo; [done|].
  destruct (decide (code ≠ 200%Z)) as [|Hcode]; [done|].
  assert (code = 200%Z) as -> by (by destruct (decide (code = 200%Z))).
  simpl. unfold WriteFile.
  destruct (fs w !! destPath) as [[f|]|]; [destruct (writable f)|..];
    try done; destruct bodyErr; try done; intros [= <-]; simpl;
    (split; [done|]); eexists _, _; split; [done| |done|];
    by rewrite lookup_insert_eq.
Qed.

(** X23. A [logo download] that succeeds has fetched the logo with status
    200, left its body in the file whose path it printed on the primary
    stream (as text, or inside the JSON payload), and, where a checksum was
    asked for, found the digest of the body equal to it. A run that ends in
    a checksum mismatch leaves the downloaded file where it is and prints
    nothing. *)
Theorem logo_download_outcomes (flags : Flags) (lf : LogoFlags)
    (identifier : string) (w w' : World) (r : option logoError) :
  runLogoDownloadCmd GetLogo filepath_Dir PrintJSON flags lf identifier w
  = (r, w') →
  (r = None →
   ∃ url path body f text,
     Do (mkRequest "GET" url browserHeaders) = Response 200 body None
     ∧ fs w' !! path = Some (File f) ∧ data f = body
     ∧ stdout w' = stdout w ++ [text]
     ∧ (text = path +:+ LF ∨ PrintJSON url path = inr text)
     ∧ (logoDownloadSHA256 lf ≠ "" →
        readable f = true
        ∧ EqualFold (sha256_hex body) (TrimSpace (logoDownloadSHA256 lf)) = true))
  ∧ (∀ path, r = Some (ErrSHA256Mismatch path) →
       stdout w' = stdout w
       ∧ ∃ f, fs w' !! path = Some (File f)
              ∧ EqualFold (sha256_hex (data f))
                  (TrimSpace (logoDownloadSHA256 lf)) = false).
Proof.
  unfold runLogoDownloadCmd.
  destruct (decide _); [by intros [= <- <-]|].
  destruct (GetLogo _) as [msg|url]; [by intros [= <- <-]|].
  set (path := if decide (logoDownloadPath lf = "") then _ else _).
  clearbody path.
  destruct (if decide (filepath_Dir path ≠ ".") then _ else _) as [e|fs1];
    [by intros [= <- <-]|].
  destruct (downloadFile url path (setFS w fs1)) as [[e|] w1] eqn:Hdl;
    [by intros [= <- <-]|].
  apply downloadFile_success in Hdl as (Hstd & body & f & Hdo & Hf & Hdata).
  simpl in Hstd.
  destruct (decide (logoDownloadSHA256 lf ≠ "")) as [Hsha|Hsha].
  - unfold verifySHA256, computeSHA256. rewrite Hf.
    destruct (readable f) eqn:Hr; [|by intros [= <- <-]].
    rewrite Hdata.
    destruct (EqualFold _ _) eqn:Hfold; simpl.
    + destruct (resolveOutput flags) as [[[|] colorize]|e].
      * intros [= <- <-]. split; [|done]. intros _.
        exists url, path, body, f, (path +:+ LF). simpl. rewrite Hstd.
        split_and!; auto.
      * destruct (PrintJSON url path) as [msg|text] eqn:Hjson;
          intros [= <- <-]; split; try done. intros _.
        exists url, path, body, f, text. simpl. rewrite Hstd.
        split_and!; auto.
      * by intros [= <- <-].
    + intros [= <- <-]. split; [done|]. intros p [= <-]. split; [done|].
      exists f. by rewrite Hdata.
  - destruct (resolveOutput flags) as [[[|] colorize]|e].
    + intros [= <- <-]. split; [|done]. intros _.
      exists url, path, body, f, (path +:+ LF). simpl. rewrite Hstd.
      split_and!; auto; done.
    + destruct (PrintJSON url path) as [msg|text] eqn:Hjson;
        intros [= <- <-]; split; try done. intros _.
      exists url, path, body, f, text. simpl. rewrite Hstd.
      split_and!; auto; done.
    + by intros [= <- <-].
Qed.

End with_env.

(** X23 at work: the light logo, with the digest it has; the path, made
    from the identifier and the extension asked for, is printed. *)
Lemma logo_download_outcomes_witness :
  let lf := mkLogoFlags "svg" "" "" "" 0 0 "" "" "sha256(<svg>light</svg>)" in
  let run := @runLogoDownloadCmd QuickSpec.exampleLib QuickSpec.exampleEnv
               (λ _, inr "cdn/light.svg") (λ _, ".") (λ _ path, inr path)
               QuickSpec.noFlags lf " stripe.com " QuickSpec.emptyWorld in
  run.1 = None
  ∧ stdout run.2 = ["stripe.com.svg" +:+ LF]
  ∧ ∃ url path body f text,
      @Do QuickSpec.exampleEnv (mkRequest "GET" url browserHeaders)
      = Response 200 body None
      ∧ fs run.2 !! path = Some (File f) ∧ data f = body
      ∧ stdout run.2 = [] ++ [text]
      ∧ (text = path +:+ LF ∨ inr path = inr (A:=string) text)
      ∧ (logoDownloadSHA256 lf ≠ "" →
         readable f = true
         ∧ @EqualFold QuickSpec.exampleLib
             (@sha256_hex QuickSpec.exampleLib body)
             (TrimSpace (logoDownloadSHA256 lf)) = true).
Proof.
  intros lf run. split; [vm_compute; reflexivity|].
  split; [vm_compute; reflexivity|].
  apply (@logo_download_outcomes QuickSpec.exampleLib QuickSpec.exampleEnv
           (λ _, inr "cdn/light.svg") (λ _, ".") (λ _ path, inr path)
           QuickSpec.noFlags lf " stripe.com " QuickSpec.emptyWorld run.2 run.1).
  - apply surjective_pairing.
  - vm_compute. reflexivity.
Defined.

End LogoDownloadSpec.
